(** * Rettiwt-API: the tweet service and its response extractors

    A shallow embedding of [src/services/public/TweetService.ts] and of the
    [extractors] table, with the properties of the fetch / extract / cursor
    pipeline, the media upload sequence and the polling stream generator.

    Layout:
    - [JS]        : the fragment of JavaScript values and operators the code
                    uses (property access, [?.], [??], truthiness, [Number]
                    subtraction, [Array.prototype.sort]);
    - data models : [Tweet], [User], [Cursor], [CursoredData], request
                    arguments;
    - [extractors]: the resource-keyed table;
    - [TweetService]: the service methods, over a log-and-error monad;
    - the theorems. *)

From Stdlib Require Import ZArith QArith List String Bool Lia.
From Stdlib Require Import Sorting.Sorted Sorting.Permutation.
Import ListNotations.
Close Scope Q_scope.
Open Scope Z_scope.

Set Implicit Arguments.
Set Warnings "-register-all".

(** ** Errors and fallible results *)

(** What a method can throw.  [TypeError] is the JavaScript error of reading
    a property of [null] or [undefined]; [TransportError] and
    [InvalidArgument] come from the fetch layer, [FileError] from [statSync],
    [ValidationError] from the argument classes.  [MalformedResponse] and
    [UploadInitFailed] are the error names of the specification; no code of
    the service or of the extractor table raises them. *)
Inductive Error : Type :=
| TypeError
| TransportError (status : Z)
| InvalidArgument
| FileError
| ValidationError
| MalformedResponse
| UploadInitFailed.

Inductive Result (A : Type) : Type :=
| Ok (a : A)
| Throw (e : Error).
Arguments Ok {A} a.
Arguments Throw {A} e.

(** ** The JavaScript fragment *)

Module JS.

(** A value of a parsed JSON response, plus [undefined]. *)
Inductive Value : Type :=
| VUndefined
| VNull
| VBool (b : bool)
| VNum (q : Q)
| VStr (s : string)
| VArr (items : list Value)
| VObj (fields : list (string * Value)).

(** [v === null || v === undefined] *)
Definition nullish (v : Value) : bool :=
  match v with
  | VUndefined | VNull => true
  | _ => false
  end.

(** Own property of an object literal; a later duplicate key wins, as in
    [JSON.parse]. *)
Fixpoint lookup (k : string) (fields : list (string * Value)) : Value :=
  match fields with
  | [] => VUndefined
  | (k', v) :: rest =>
      match lookup k rest with
      | VUndefined => if String.eqb k k' then v else VUndefined
      | later => later
      end
  end.

(** [v.k] for a value that is neither [null] nor [undefined].  The keys the
    program reads ([data], [create_retweet], [favorite_tweet],
    [create_tweet], [tweet_results], [result], [rest_id],
    [media_id_string]) are not properties of the primitive wrappers or of
    arrays, so on those the result is [undefined]. *)
Definition prop (v : Value) (k : string) : Value :=
  match v with
  | VObj fields => lookup k fields
  | _ => VUndefined
  end.

(** [v.k]: throws on [null] and [undefined]. *)
Definition get (v : Value) (k : string) : Result Value :=
  if nullish v then Throw TypeError else Ok (prop v k).

(** [v?.k] *)
Definition get_opt (v : Value) (k : string) : Value :=
  if nullish v then VUndefined else prop v k.

(** [a ?? b] *)
Definition coalesce (a b : Value) : Value :=
  if nullish a then b else a.

(** [ToBoolean]: the test of [c ? x : y]. *)
Definition truthy (v : Value) : bool :=
  match v with
  | VUndefined | VNull => false
  | VBool b => b
  | VNum q => negb (Qeq_bool q 0)
  | VStr s => negb (String.eqb s EmptyString)
  | VArr _ | VObj _ => true
  end.

(** The result of [Date.prototype.valueOf]: an integral time value in
    milliseconds, or [NaN] for an invalid date. *)
Inductive Number : Type :=
| NaN
| Fin (z : Z).

(** [a - b] on time values. *)
Definition sub (a b : Number) : Number :=
  match a, b with
  | Fin x, Fin y => Fin (x - y)
  | _, _ => NaN
  end.

(** [SortCompare] of [Array.prototype.sort] on the comparator's result
    [v]: a [NaN] counts as [+0]; the first argument goes after the second
    exactly when [v > 0]. *)
Definition goes_after (v : Number) : bool :=
  match v with
  | NaN => false
  | Fin z => 0 <? z
  end.

Section Sort.
Variable A : Type.
Variable comparefn : A -> A -> Number.

(** [x] is placed in front of the first element it need not follow. *)
Fixpoint insert (x : A) (l : list A) : list A :=
  match l with
  | [] => [x]
  | y :: rest =>
      if goes_after (comparefn x y) then y :: insert x rest
      else x :: y :: rest
  end.

(** [Array.prototype.sort(comparefn)] for a comparator that is consistent
    on the elements of the array: the language fixes the result, the one
    stable arrangement in the comparator's order, and this is the insertion
    sort that computes it.  It says nothing about an inconsistent
    comparator, see [consistent] and [Env]. *)
Definition Array_sort (l : list A) : list A :=
  fold_right insert [] l.

(** The comparator's result is below zero, equal to zero, not a number. *)
Definition negative (v : Number) : bool :=
  match v with
  | NaN => false
  | Fin z => z <? 0
  end.

Definition zero (v : Number) : bool :=
  match v with
  | NaN => false
  | Fin z => z =? 0
  end.

Definition is_NaN (v : Number) : bool :=
  match v with
  | NaN => true
  | Fin _ => false
  end.

(** The conditions of a consistent comparator at three values [a], [b],
    [c] of the array: the result is a number and not [NaN]; [a] equals
    itself; equality is symmetric; equality, less and greater are
    transitive. *)
Definition consistent_at (a b c : A) : bool :=
  negb (is_NaN (comparefn a b))
  && zero (comparefn a a)
  && implb (zero (comparefn a b)) (zero (comparefn b a))
  && implb (zero (comparefn a b) && zero (comparefn b c)) (zero (comparefn a c))
  && implb (negative (comparefn a b) && negative (comparefn b c))
       (negative (comparefn a c))
  && implb (goes_after (comparefn a b) && goes_after (comparefn b c))
       (goes_after (comparefn a c)).

(** [comparefn] is a consistent comparator for the values of [l]; when it
    is not, the sort order is implementation-defined. *)
Definition consistent (l : list A) : bool :=
  forallb (fun a => forallb (fun b => forallb (consistent_at a b) l) l) l.

(** *** The sort of V8 on a short array

    For an array of fewer than 64 elements V8 sorts in one run: it takes
    the longest run at the front, strictly descending (and then reversed)
    or non-descending, and inserts the remaining elements one by one by
    binary search.  A [NaN] from the comparator counts as [+0]. *)

(** [CountAndMakeRun], from the third element on: [run] is the run so far,
    last element first. *)
Fixpoint extend_run (descending : bool) (previous : A) (run : list A)
  (rest : list A) : list A * list A :=
  match rest with
  | [] => (run, [])
  | current :: rest' =>
      let order := comparefn current previous in
      if (if descending then negative order else negb (negative order))
      then extend_run descending current (current :: run) rest'
      else (run, rest)
  end.

Definition count_and_make_run (l : list A) : list A * list A :=
  match l with
  | first :: second :: rest =>
      let descending := negative (comparefn second first) in
      match extend_run descending second [second; first] rest with
      | (run, remaining) => (if descending then run else rev run, remaining)
      end
  | _ => (l, [])
  end.

(** The binary search of [BinaryInsertionSort]: where [pivot] goes in
    [sorted], between [left] and [right]. *)
Fixpoint insertion_point (fuel : nat) (pivot : A) (sorted : list A)
  (left right : nat) : nat :=
  match fuel with
  | O => left
  | S fuel' =>
      if (left <? right)%nat then
        let mid := (left + Nat.div2 (right - left))%nat in
        match nth_error sorted mid with
        | Some element =>
            if negative (comparefn pivot element)
            then insertion_point fuel' pivot sorted left mid
            else insertion_point fuel' pivot sorted (S mid) right
        | None => left
        end
      else left
  end.

Definition binary_insert (sorted : list A) (pivot : A) : list A :=
  let left :=
    insertion_point (S (List.length sorted)) pivot sorted 0 (List.length sorted) in
  firstn left sorted ++ pivot :: skipn left sorted.

Definition V8_short_sort (l : list A) : list A :=
  match count_and_make_run l with
  | (run, remaining) => fold_left binary_insert remaining run
  end.
End Sort.

End JS.
Import JS.

(** ** Data models *)

(** Modelled from the spec: the entity classes [Tweet] and [User]
    (models/data) are defined outside the service; an entity is a record
    with a stable identifier and resource-specific fields, of which the
    service reads [id] and [createdAt]. *)
Record Tweet : Type := mkTweet {
  tweet_id : string;
  createdAt : string;
  fullText : string
}.

Record User : Type := mkUser {
  user_id : string;
  userName : string
}.

(** Modelled from the spec: [Cursor] is an opaque string token. *)
Record Cursor : Type := mkCursor { value : string }.

(** Modelled from the spec: [CursoredData<T>] pairs the batch with the
    [next] cursor, absent when no further data exists. *)
Record CursoredData (T : Type) : Type := mkCursoredData {
  list_ : list T;
  next : option Cursor
}.
Arguments mkCursoredData {T} list_ next.

Inductive EBaseType : Type := TWEET | USER.

Definition Entity (t : EBaseType) : Type :=
  match t with
  | TWEET => Tweet
  | USER => User
  end.

(** The keys of the [extractors] table, which are the members of
    [EResourceType]. *)
Inductive EResourceType : Type :=
| LIST_TWEETS
| MEDIA_UPLOAD_APPEND
| MEDIA_UPLOAD_FINALIZE
| MEDIA_UPLOAD_INITIALIZE
| TWEET_RETWEET
| TWEET_CREATE
| TWEET_FAVORITE
| TWEET_SEARCH
| TWEET_DETAILS
| TWEET_FAVORITERS
| TWEET_RETWEETERS
| USER_DETAILS_BY_USERNAME
| USER_DETAILS_BY_ID
| USER_FOLLOWING
| USER_FOLLOWERS
| USER_HIGHLIGHTS
| USER_LIKES
| USER_MEDIA
| USER_SUBSCRIPTIONS
| USER_TWEETS
| USER_TWEETS_AND_REPLIES.


(** The member of [AllReturnTypes] each extractor produces: the type
    argument the service passes to [extract<T>]. *)
Definition ReturnType (r : EResourceType) : Type :=
  match r with
  | MEDIA_UPLOAD_APPEND | MEDIA_UPLOAD_FINALIZE => unit
  | MEDIA_UPLOAD_INITIALIZE | TWEET_CREATE => Value
  | TWEET_RETWEET | TWEET_FAVORITE => bool
  | TWEET_DETAILS => Tweet
  | USER_DETAILS_BY_USERNAME | USER_DETAILS_BY_ID => User
  | LIST_TWEETS | TWEET_SEARCH | USER_HIGHLIGHTS | USER_LIKES | USER_MEDIA
  | USER_TWEETS | USER_TWEETS_AND_REPLIES => CursoredData Tweet
  | TWEET_FAVORITERS | TWEET_RETWEETERS | USER_FOLLOWING | USER_FOLLOWERS
  | USER_SUBSCRIPTIONS => CursoredData User
  end.


(** ** Request arguments *)

(** A media payload: a file path or an in-memory [ArrayBuffer]. *)
Inductive Media : Type :=
| MPath (path : string)
| MBuffer (bytes : list Byte.byte).

(** [TweetFilter] of rettiwt-core, with the fields the service and its
    examples set; [others] carries the remaining ones, which the object
    spread copies unchanged. *)
Module Filter.
Record TweetFilter : Type := mk {
  fromUsers : option (list string);
  words : option (list string);
  startDate : option Z;
  sinceId : option string;
  others : list (string * Value)
}.
End Filter.
Abbreviation TweetFilter := Filter.TweetFilter.

(** Public [TweetArgs]: what the caller of [post] passes. *)
Record TweetMediaItem : Type := mkTweetMediaItem {
  path : Media;
  tags : option (list string)
}.

Record TweetArgs : Type := mkTweetArgs {
  text : string;
  media : option (list TweetMediaItem);
  quote : option string;
  replyTo : option string
}.

(** Internal [TweetMediaArgs] of [PostArgs]: an uploaded media item. *)
Record TweetMediaArgs : Type := mkTweetMediaArgs {
  media_id : Value;
  media_tags : option (list string)
}.

(** The object literal [{ text, media, quote, replyTo }] sent by [post]. *)
Record TweetPayload : Type := mkTweetPayload {
  p_text : string;
  p_media : list TweetMediaArgs;
  p_quote : option string;
  p_replyTo : option string
}.

(** The three [upload] literals. *)
Inductive UploadArgs : Type :=
| UploadSize (size : Z)                      (* { size } *)
| UploadAppend (id : Value) (media : Media)  (* { id, media } *)
| UploadId (id : Value).                     (* { id } *)

(** The argument object of [request], one constructor per literal shape the
    service builds. *)
Inductive Args : Type :=
| ArgsId (id : string)
| ArgsPage (id : string) (count : option Z) (cursor : option string)
| ArgsFilter (filter : TweetFilter) (count : option Z) (cursor : option string)
| ArgsTweet (tweet : TweetPayload)
| ArgsUpload (upload : UploadArgs).

(** ** Observable events and the environment *)

(** What a run of the service does, in order: a [setTimeout] sleep, a call
    of [this.request], a value handed to the consumer of the generator. *)
Inductive Event : Type :=
| EvSleep (ms : Z)
| EvRequest (resource : EResourceType) (args : Args)
| EvYield (tweet : Tweet).

(** The collaborators the service and the table call into, taken as
    parameters: the transport behind [FetcherService.request] (its reply may
    depend on everything that happened before), the file system, the
    constructors of the data models, which build a value or throw, [Date]
    parsing, the validating constructor of [TweetArgs], and the arrangement
    the engine's [Array.prototype.sort] leaves a list of tweets in when the
    comparator is not consistent on it. *)
Record Env : Type := mkEnv {
  transport : list Event -> EResourceType -> Args -> Result Value;
  statSync_size : string -> Result Z;
  CursoredData_new :
    forall t : EBaseType, Value -> Result (CursoredData (Entity t));
  Tweet_single : Value -> Result (option Tweet);
  User_single : Value -> Result (option User);
  Date_valueOf : string -> Number;
  TweetArgs_new : TweetArgs -> Result TweetArgs;
  engine_sort : (Tweet -> Tweet -> Number) -> list Tweet -> list Tweet
}.

(** ** The log-and-error monad *)

Definition M (A : Type) : Type := list Event -> Result A * list Event.

Definition ret {A} (a : A) : M A := fun tr => (Ok a, tr).

Definition bind {A B} (c : M A) (k : A -> M B) : M B :=
  fun tr =>
    match c tr with
    | (Ok a, tr') => k a tr'
    | (Throw e, tr') => (Throw e, tr')
    end.

Definition lift {A} (r : Result A) : M A := fun tr => (r, tr).

Notation "x <- c ;; k" := (bind c (fun x => k))
  (at level 61, c at next level, right associativity).

(** The value of a [new] expression as an extraction result: the object
    built, or the exception of the constructor. *)
Definition built {T : Type} (object : Result T) : Result (option T) :=
  match object with
  | Ok o => Ok (Some o)
  | Throw e => Throw e
  end.

(** [x === undefined ? None : Some x], for a scalar result. *)
Definition defined (v : Value) : option Value :=
  match v with
  | VUndefined => None
  | _ => Some v
  end.

(** ** The extractors table *)

Section Extractors.
Variable env : Env.

Definition extractors (r : EResourceType) (response : Value)
  : Result (option (ReturnType r)) :=
  match r return Result (option (ReturnType r)) with
  | LIST_TWEETS => built (CursoredData_new env TWEET response)

  | MEDIA_UPLOAD_APPEND => Ok None
  | MEDIA_UPLOAD_FINALIZE => Ok None
  | MEDIA_UPLOAD_INITIALIZE =>
      match get response "media_id_string" with
      | Ok id => Ok (defined (coalesce id VUndefined))
      | Throw e => Throw e
      end

  | TWEET_RETWEET =>
      Ok (Some (if truthy (get_opt (get_opt response "data") "create_retweet")
                then true else false))
  | TWEET_CREATE =>
      Ok (defined
            (coalesce
               (get_opt (get_opt (get_opt (get_opt (get_opt response
                  "data") "create_tweet") "tweet_results") "result") "rest_id")
               VUndefined))
  | TWEET_FAVORITE =>
      Ok (Some (if truthy (get_opt (get_opt response "data") "favorite_tweet")
                then true else false))
  | TWEET_SEARCH => built (CursoredData_new env TWEET response)
  | TWEET_DETAILS => Tweet_single env response
  | TWEET_FAVORITERS => built (CursoredData_new env USER response)
  | TWEET_RETWEETERS => built (CursoredData_new env USER response)

  | USER_DETAILS_BY_USERNAME => User_single env response
  | USER_DETAILS_BY_ID => User_single env response
  | USER_FOLLOWING => built (CursoredData_new env USER response)
  | USER_FOLLOWERS => built (CursoredData_new env USER response)
  | USER_HIGHLIGHTS => built (CursoredData_new env TWEET response)
  | USER_LIKES => built (CursoredData_new env TWEET response)
  | USER_MEDIA => built (CursoredData_new env TWEET response)
  | USER_SUBSCRIPTIONS => built (CursoredData_new env USER response)
  | USER_TWEETS => built (CursoredData_new env TWEET response)
  | USER_TWEETS_AND_REPLIES => built (CursoredData_new env TWEET response)
  end.

End Extractors.

(** ** The tweet service *)

Module TweetService.
Section Methods.
Variable env : Env.

(** *** FetcherService *)

(** Modelled from the spec: [FetcherService.request], the fetch dispatcher
    the service inherits; one call hands the resource and its arguments to
    the transport and returns the raw response unmodified, or fails. *)
Definition request (resource : EResourceType) (args : Args) : M Value :=
  fun tr => (transport env tr resource args, tr ++ [EvRequest resource args]).

(** Modelled from the spec: [FetcherService.extract], inherited as well;
    extraction is the pure mapping keyed by the resource, that is the entry
    of the [extractors] table applied to the response. *)
Definition extract (response : Value) (resource : EResourceType)
  : M (option (ReturnType resource)) :=
  lift (extractors env resource response).

(** *** TweetService *)




(** The comparator [(a, b) => new Date(b.createdAt).valueOf() -
    new Date(a.createdAt).valueOf()]. *)
Definition by_date (a b : Tweet) : Number :=
  sub (Date_valueOf env (createdAt b)) (Date_valueOf env (createdAt a)).

(** [list.sort(by_date)]: where the comparator is consistent, the
    arrangement the language fixes; where it is not, the engine's. *)
Definition sort_by_date (l : Datatypes.list Tweet) : Datatypes.list Tweet :=
  if consistent by_date l then Array_sort by_date l
  else engine_sort env by_date l.

(** [data.list.sort(...)] on the asserted result: in place, and a
    [TypeError] when [data] is [undefined]. *)
Definition sort_list (data : option (CursoredData Tweet))
  : M (CursoredData Tweet) :=
  match data with
  | Some d => ret (mkCursoredData (sort_by_date (list_ d)) (next d))
  | None => lift (Throw TypeError)
  end.



Definition search (query : TweetFilter) (count : option Z)
  (cursor : option string) : M (CursoredData Tweet) :=
  let resource := TWEET_SEARCH in
  response <- request resource (ArgsFilter query count cursor) ;;
  data <- extract response resource ;;
  sort_list data.

(** [typeof media == 'string' ? statSync(media).size : media.byteLength] *)
Definition byte_size (media : Media) : Result Z :=
  match media with
  | MPath p => statSync_size env p
  | MBuffer bytes => Ok (Z.of_nat (List.length bytes))
  end.

Definition upload (media : Media) : M Value :=
  (* INITIALIZE *)
  size <- lift (byte_size media) ;;
  response <- request MEDIA_UPLOAD_INITIALIZE (ArgsUpload (UploadSize size)) ;;
  id <- lift (get response "media_id_string") ;;
  (* APPEND *)
  _ <- request MEDIA_UPLOAD_APPEND (ArgsUpload (UploadAppend id media)) ;;
  (* FINALIZE *)
  _ <- request MEDIA_UPLOAD_FINALIZE (ArgsUpload (UploadId id)) ;;
  ret id.

(** The loop [for (const item of tweet.media)] with the array
    [uploadedMedia] it pushes to. *)
Fixpoint upload_items (items : list TweetMediaItem)
  (uploadedMedia : list TweetMediaArgs) : M (list TweetMediaArgs) :=
  match items with
  | [] => ret uploadedMedia
  | item :: rest =>
      id <- upload (path item) ;;
      upload_items rest (uploadedMedia ++ [mkTweetMediaArgs id (tags item)])
  end.

Definition post (options : TweetArgs) : M (option Value) :=
  let resource := TWEET_CREATE in
  tweet <- lift (TweetArgs_new env options) ;;
  uploadedMedia <-
    match media tweet with
    | Some items => upload_items items []
    | None => ret []
    end ;;
  response <-
    request resource
      (ArgsTweet (mkTweetPayload (text options) uploadedMedia
                    (quote options) (replyTo options))) ;;
  data <- extract response resource ;;
  ret data.

(** *** The stream generator *)

(** The three local variables of [stream]. *)
Record StreamState : Type := mkStreamState {
  cursor : option string;
  sinceId : option string;
  nextSinceId : option string
}.

(** Where control is inside the generator: before the body, at the head of
    the [while] loop, inside the [for] loop with the tweets still to be
    yielded, or after an exception. *)
Inductive GenState : Type :=
| SuspendedStart
| LoopHead (st : StreamState)
| InBatch (st : StreamState) (tweets : CursoredData Tweet)
    (rest : Datatypes.list Tweet)
| Completed.

(** What a call of [next()] has to show: a value, a rejection, [done], or
    nothing yet. *)
Inductive Step : Type :=
| Yielded (tweet : Tweet)
| Thrown (e : Error)
| Finished
| Pending.

(** [pollingInterval: number = 60000] *)
Definition default_pollingInterval : Z := 60000.

Section Stream.
Variable filter : TweetFilter.
Variable pollingInterval : Z.
(** The value of [new Date()] when the body is entered. *)
Variable startDate : Z.

Definition initial : StreamState := mkStreamState None None None.

(** [{ ...filter, startDate: startDate, sinceId: sinceId }] *)
Definition query (st : StreamState) : TweetFilter :=
  Filter.mk (Filter.fromUsers filter) (Filter.words filter)
    (Some startDate) (sinceId st) (Filter.others filter).

(** The two [if]s that follow the [for] loop of one iteration. *)
Definition after_batch (st : StreamState) (tweets : CursoredData Tweet)
  : StreamState :=
  let nextSinceId' :=
    match list_ tweets, cursor st with
    | first :: _, None => Some (tweet_id first)
    | _, _ => nextSinceId st
    end in
  match list_ tweets, next tweets with
  | _ :: _, Some c => mkStreamState (Some (value c)) (sinceId st) nextSinceId'
  | _, _ => mkStreamState None nextSinceId' nextSinceId'
  end.

(** One move of the generator body.
    - entering the body initialises the three variables;
    - at the head of the loop: sleep for the interval, then search;
    - inside the [for] loop: yield the next tweet of the batch;
    - past the [for] loop: the bookkeeping, and back to the head. *)
Definition step (g : GenState) (tr : Datatypes.list Event)
  : Step * GenState * Datatypes.list Event :=
  match g with
  | SuspendedStart => (Pending, LoopHead initial, tr)
  | LoopHead st =>
      match search (query st) None (cursor st)
              (tr ++ [EvSleep pollingInterval]) with
      | (Ok tweets, tr') => (Pending, InBatch st tweets (list_ tweets), tr')
      | (Throw e, tr') => (Thrown e, Completed, tr')
      end
  | InBatch st tweets (tweet :: rest) =>
      (Yielded tweet, InBatch st tweets rest, tr ++ [EvYield tweet])
  | InBatch st tweets [] => (Pending, LoopHead (after_batch st tweets), tr)
  | Completed => (Finished, Completed, tr)
  end.

(** One call of [next()]: the body runs until it yields or throws; [fuel]
    bounds the number of moves looked at. *)
Fixpoint resume (fuel : nat) (g : GenState) (tr : Datatypes.list Event)
  : Step * GenState * Datatypes.list Event :=
  match fuel with
  | O => (Pending, g, tr)
  | S fuel' =>
      match step g tr with
      | (Pending, g', tr') => resume fuel' g' tr'
      | settled => settled
      end
  end.

(** [stream(filter, pollingInterval)]: the generator object, not yet
    started. *)
Definition stream : GenState := SuspendedStart.

End Stream.

(** [list] comes last only because its name hides the type of lists. *)
Definition list (listId : string) (count : option Z) (cursor : option string)
  : M (CursoredData Tweet) :=
  let resource := LIST_TWEETS in
  response <- request resource (ArgsPage listId count cursor) ;;
  data <- extract response resource ;;
  sort_list data.


End Methods.
End TweetService.

(** ** A scripted environment

    A small concrete [Env] for running the service: the transport plays a
    script of replies in order, the data-model constructors read a flat
    rendering of a page, a date is a string of decimal digits (its time
    value), anything else being an invalid date, and the engine is V8 on
    short arrays. *)

Module Mock.

Definition is_request (e : Event) : bool :=
  match e with
  | EvRequest _ _ => true
  | _ => false
  end.

(** The reply to a request is picked by the number of requests before it. *)
Definition scripted (replies : list (Result Value)) (otherwise : Result Value)
  (tr : list Event) (_ : EResourceType) (_ : Args) : Result Value :=
  nth (List.length (filter is_request tr)) replies otherwise.

Definition digit (c : Ascii.ascii) : option Z :=
  let n := Z.of_nat (Ascii.nat_of_ascii c) in
  if (48 <=? n) && (n <=? 57) then Some (n - 48) else None.

Fixpoint digits (acc : Z) (s : string) : Number :=
  match s with
  | EmptyString => Fin acc
  | String c rest =>
      match digit c with
      | Some d => digits (10 * acc + d) rest
      | None => NaN
      end
  end.

Definition Date_valueOf (s : string) : Number :=
  match s with
  | EmptyString => NaN
  | _ => digits 0 s
  end.

Definition str (v : Value) : string :=
  match v with
  | VStr s => s
  | _ => EmptyString
  end.

Definition items (v : Value) : list Value :=
  match prop v "list" with
  | VArr l => l
  | _ => []
  end.

Definition cursor_of (v : Value) : option Cursor :=
  match prop v "next" with
  | VStr c => Some (mkCursor c)
  | _ => None
  end.

Definition tweet_of (v : Value) : Tweet :=
  mkTweet (str (prop v "id")) (str (prop v "createdAt")) (str (prop v "fullText")).

Definition user_of (v : Value) : User :=
  mkUser (str (prop v "id")) (str (prop v "userName")).

(** A reply the constructors can walk: an object or an array. *)
Definition walkable (v : Value) : bool :=
  match v with
  | VObj _ | VArr _ => true
  | _ => false
  end.

(** The constructor reads the page of a walkable reply and throws a
    [TypeError] on any other, a string or [null] for instance. *)
Definition CursoredData_new (t : EBaseType)
  : Value -> Result (CursoredData (Entity t)) :=
  match t return Value -> Result (CursoredData (Entity t)) with
  | TWEET => fun v =>
      if walkable v
      then Ok (mkCursoredData (map tweet_of (items v)) (cursor_of v))
      else Throw TypeError
  | USER => fun v =>
      if walkable v
      then Ok (mkCursoredData (map user_of (items v)) (cursor_of v))
      else Throw TypeError
  end.

Definition Tweet_single (v : Value) : Result (option Tweet) :=
  if walkable v
  then Ok (match items v with x :: _ => Some (tweet_of x) | [] => None end)
  else Throw TypeError.

Definition User_single (v : Value) : Result (option User) :=
  if walkable v
  then Ok (match items v with x :: _ => Some (user_of x) | [] => None end)
  else Throw TypeError.

(** The rendering of a tweet and of a page the constructors above read. *)
Definition raw_tweet (t : Tweet) : Value :=
  VObj [("id"%string, VStr (tweet_id t));
        ("createdAt"%string, VStr (createdAt t));
        ("fullText"%string, VStr (fullText t))].

Definition raw_page (l : list Tweet) (next : option string) : Value :=
  VObj [("list"%string, VArr (map raw_tweet l));
        ("next"%string, match next with Some c => VStr c | None => VUndefined end)].

(** Every file is 1024 bytes long, except that [missing.jpg] does not
    exist. *)
Definition statSync_size (p : string) : Result Z :=
  if String.eqb p "missing.jpg" then Throw FileError else Ok 1024.

Definition env (replies : list (Result Value)) (otherwise : Result Value) : Env :=
  mkEnv (scripted replies otherwise) statSync_size CursoredData_new
    Tweet_single User_single Date_valueOf
    (fun options => Ok options)
    (@V8_short_sort Tweet).

End Mock.

(** ** Orderings by a key

    The comparator of [search] and [list] subtracts two keys; these are the
    orderings it induces. *)

Section KeyOrder.
Variable A : Type.
Variable key : A -> Number.

(** [(a, b) => key(b) - key(a)] *)
Definition descending_cmp (a b : A) : Number := sub (key b) (key a).

(** The comparator does not ask for [a] to go after [b]. *)
Definition not_after (a b : A) : Prop :=
  goes_after (descending_cmp a b) = false.

(** Both keys are time values and [a]'s is at least [b]'s. *)
Definition at_least (a b : A) : Prop :=
  match key a, key b with
  | Fin ka, Fin kb => kb <= ka
  | _, _ => False
  end.

Definition has_key (a : A) : Prop := key a <> NaN.

End KeyOrder.

Section Ordering.
Variable env : Env.

(** [new Date(t.createdAt).valueOf()] *)
Definition time (t : Tweet) : Number := Date_valueOf env (createdAt t).

Definition valid_date : Tweet -> Prop := has_key time.

(** In a pair of neighbours the second is not the more recent one (a tweet
    whose date does not parse compares equal to every other). *)
Definition not_older : Tweet -> Tweet -> Prop := not_after time.

(** Both dates parse and the first is at least as recent as the second. *)
Definition most_recent_first : Tweet -> Tweet -> Prop := at_least time.

(** What [search] and [list] make of an extracted page of validly dated
    tweets: the same cursor, the same tweets, every tweet at least as recent
    as all that follow it. *)
Record sorted_page (extracted data : CursoredData Tweet) : Prop := {
  same_next : next data = next extracted;
  same_tweets : Permutation (list_ extracted) (list_ data);
  descending : StronglySorted most_recent_first (list_ data)
}.

End Ordering.

(** ** Scenarios *)

(** The three tweets of the sorting example, created at T-1, T-3 and T-2
    for T = 100. *)
Definition tweet_T1 : Tweet := mkTweet "a" "99" "first".
Definition tweet_T3 : Tweet := mkTweet "b" "97" "second".
Definition tweet_T2 : Tweet := mkTweet "c" "98" "third".

Definition example_env : Env :=
  Mock.env [Ok (Mock.raw_page [tweet_T1; tweet_T3; tweet_T2] None)]
    (Throw (TransportError 404)).

Definition from_u1 : TweetFilter :=
  Filter.mk (Some ["u1"%string]) None None None [].

(** A reply with an undated tweet between an old and a recent one. *)
Definition old_tweet : Tweet := mkTweet "1" "1" "old".
Definition undated_tweet : Tweet := mkTweet "2" "soon" "undated".
Definition recent_tweet : Tweet := mkTweet "3" "3" "recent".

Definition undated_env : Env :=
  Mock.env [Ok (Mock.raw_page [old_tweet; undated_tweet; recent_tweet] None)]
    (Throw (TransportError 404)).

(** ** Reading the extractors *)



(** The top-level envelope is a JSON object. *)
Definition is_object (v : Value) : bool :=
  match v with
  | VObj _ => true
  | _ => false
  end.



(** ** Reading the upload *)

(** The three requests of an upload of [media], of [size] bytes, under the
    media id [id]. *)
Definition phases (size : Z) (id : Value) (media : Media) : list Event :=
  [EvRequest MEDIA_UPLOAD_INITIALIZE (ArgsUpload (UploadSize size));
   EvRequest MEDIA_UPLOAD_APPEND (ArgsUpload (UploadAppend id media));
   EvRequest MEDIA_UPLOAD_FINALIZE (ArgsUpload (UploadId id))].

(** The media id the Initialize phase returns: the [media_id_string] of its
    reply. *)
Definition initialize (env : Env) (tr : list Event) (size : Z) : Result Value :=
  match transport env tr MEDIA_UPLOAD_INITIALIZE (ArgsUpload (UploadSize size)) with
  | Ok reply => get reply "media_id_string"
  | Throw e => Throw e
  end.


(** The byte size of a payload: what [statSync] reports for the file at
    the path, or the number of bytes of the buffer. *)
Definition payload_size (env : Env) (media : Media) : Result Z :=
  match media with
  | MPath file => statSync_size env file
  | MBuffer bytes => Ok (Z.of_nat (List.length bytes))
  end.

(** The runs of [upload media] from the log [tr]: its result and the log it
    leaves.  Either the size cannot be read and nothing is requested, or a
    phase fails and no later phase is requested, or the three phases are
    requested in order and the id of Initialize is returned. *)
Inductive upload_run (env : Env) (media : Media) (tr : list Event)
  : Result Value -> list Event -> Prop :=
| size_failed e :
    payload_size env media = Throw e ->
    upload_run env media tr (Throw e) tr
| initialize_failed size e :
    payload_size env media = Ok size ->
    initialize env tr size = Throw e ->
    upload_run env media tr (Throw e)
      (tr ++ firstn 1 (phases size VUndefined media))
| append_failed size id e :
    payload_size env media = Ok size ->
    initialize env tr size = Ok id ->
    transport env (tr ++ firstn 1 (phases size id media))
      MEDIA_UPLOAD_APPEND (ArgsUpload (UploadAppend id media)) = Throw e ->
    upload_run env media tr (Throw e) (tr ++ firstn 2 (phases size id media))
| finalize_failed size id appended e :
    payload_size env media = Ok size ->
    initialize env tr size = Ok id ->
    transport env (tr ++ firstn 1 (phases size id media))
      MEDIA_UPLOAD_APPEND (ArgsUpload (UploadAppend id media)) = Ok appended ->
    transport env (tr ++ firstn 2 (phases size id media))
      MEDIA_UPLOAD_FINALIZE (ArgsUpload (UploadId id)) = Throw e ->
    upload_run env media tr (Throw e) (tr ++ phases size id media)
| uploaded size id appended finalized :
    payload_size env media = Ok size ->
    initialize env tr size = Ok id ->
    transport env (tr ++ firstn 1 (phases size id media))
      MEDIA_UPLOAD_APPEND (ArgsUpload (UploadAppend id media)) = Ok appended ->
    transport env (tr ++ firstn 2 (phases size id media))
      MEDIA_UPLOAD_FINALIZE (ArgsUpload (UploadId id)) = Ok finalized ->
    upload_run env media tr (Ok id) (tr ++ phases size id media).



(** The upload of [mountains.jpg] answered with the media id [710511363]. *)
Definition upload_env : Env :=
  Mock.env [Ok (VObj [("media_id_string"%string, VStr "710511363")])]
    (Ok VUndefined).

(** An Initialize reply, [{}], that carries no media id. *)
Definition no_id_env : Env := Mock.env [Ok (VObj [])] (Ok VUndefined).


Definition created (id : string) : Value :=
  VObj [("data"%string, VObj [("create_tweet"%string,
    VObj [("tweet_results"%string,
      VObj [("result"%string, VObj [("rest_id"%string, VStr id)])])])])].


(** ** The streaming scenarios *)

(** [e1] created at t = 5 and [e2] at t = 3. *)
Definition e1 : Tweet := mkTweet "1001" "5" "hello".
Definition e2 : Tweet := mkTweet "1000" "3" "world".

(** The mocked search: the batch [e1, e2] without a next cursor on the
    first round, an empty batch afterwards. *)
Definition stream_env : Env :=
  Mock.env [Ok (Mock.raw_page [e1; e2] None)] (Ok (Mock.raw_page [] None)).

(** A first page of one tweet that comes with a next cursor. *)
Definition backlog_env : Env :=
  Mock.env [Ok (Mock.raw_page [e1] (Some "scroll:1"%string))]
    (Ok (Mock.raw_page [] None)).

(** The filter [{ fromUsers: ['u1'] }] as [stream] sends it. *)
Definition u1_since (startDate : Z) (since : option string) : TweetFilter :=
  Filter.mk (Some ["u1"%string]) None (Some startDate) since [].

(** One poll of the scenario: the sleep, then the search. *)
Definition poll (startDate : Z) (since cursor : option string) : list Event :=
  [EvSleep 1000;
   EvRequest TWEET_SEARCH (ArgsFilter (u1_since startDate since) None cursor)].

(** [n] polls in a row. *)
Definition polls (startDate : Z) (since : option string) (n : nat) : list Event :=
  List.concat (repeat (poll startDate since None) n).

(** The log has a request in it. *)
Definition has_request (tr : list Event) : Prop :=
  (1 <= List.length (filter Mock.is_request tr))%nat.

(** The state between two rounds once [e1] has been seen. *)
Definition watermark : TweetService.StreamState :=
  TweetService.mkStreamState None (Some "1001"%string) (Some "1001"%string).

(** ** Further readings of the service *)

(** Equality of two time values, [NaN] standing for the invalid date. *)
Definition Number_eqb (a b : Number) : bool :=
  match a, b with
  | NaN, NaN => true
  | Fin x, Fin y => x =? y
  | _, _ => false
  end.

(** The tweets of a list whose date has the time value [k]. *)
Definition dated (env : Env) (k : Number) (l : list Tweet) : list Tweet :=
  filter (fun t => Number_eqb (time env t) k) l.

(** The page a TWEET_SEARCH or LIST_TWEETS reply is extracted to, the empty
    page standing in where the constructor throws. *)
Definition extracted (env : Env) (raw : Value) : CursoredData Tweet :=
  match CursoredData_new env TWEET raw with
  | Ok page => page
  | Throw _ => mkCursoredData [] None
  end.

(** A consumer that calls [next()] [n] times, as [for await] does, each
    call looking at no more than [fuel] moves of the body. *)
Fixpoint pull (env : Env) (filter : TweetFilter) (pollingInterval startDate : Z)
  (n fuel : nat) (g : TweetService.GenState) (tr : list Event)
  : list TweetService.Step * TweetService.GenState * list Event :=
  match n with
  | O => ([], g, tr)
  | S n' =>
      match TweetService.resume env filter pollingInterval startDate fuel g tr with
      | (r, g', tr') =>
          match pull env filter pollingInterval startDate n' fuel g' tr' with
          | (rs, g'', tr'') => (r :: rs, g'', tr'')
          end
      end
  end.

(** A log in which every search comes right after a sleep of the polling
    interval, with yields anywhere in between. *)
Inductive paced (pollingInterval : Z) : list Event -> Prop :=
| paced_nil : paced pollingInterval []
| paced_yield tweet evs :
    paced pollingInterval evs -> paced pollingInterval (EvYield tweet :: evs)
| paced_poll query cursor evs :
    paced pollingInterval evs ->
    paced pollingInterval
      (EvSleep pollingInterval
       :: EvRequest TWEET_SEARCH (ArgsFilter query None cursor) :: evs).

(** [id] is absent, or the id of a tweet the log shows as yielded. *)
Definition delivered (tr : list Event) (id : option string) : Prop :=
  match id with
  | None => True
  | Some i => exists tweet, In (EvYield tweet) tr /\ tweet_id tweet = i
  end.

(** The watermarks of a state are delivered tweets, and between rounds (no
    cursor) [sinceId] and [nextSinceId] agree. *)
Definition watermarks_delivered (tr : list Event) (st : TweetService.StreamState)
  : Prop :=
  delivered tr (TweetService.sinceId st)
  /\ delivered tr (TweetService.nextSinceId st)
  /\ (TweetService.cursor st = None ->
      TweetService.sinceId st = TweetService.nextSinceId st).

(** The invariant of the generator: the watermarks are delivered tweets,
    and inside a batch the tweets no longer to be yielded have been. *)
Definition generator_ok (g : TweetService.GenState) (tr : list Event) : Prop :=
  match g with
  | TweetService.SuspendedStart | TweetService.Completed => True
  | TweetService.LoopHead st => watermarks_delivered tr st
  | TweetService.InBatch st tweets rest =>
      watermarks_delivered tr st
      /\ exists done,
           list_ tweets = done ++ rest
           /\ Forall (fun tweet => In (EvYield tweet) tr) done
  end.

(** The states and logs a consumer can bring a fresh generator to. *)
Inductive reachable (env : Env) (filter : TweetFilter)
  (pollingInterval startDate : Z)
  : TweetService.GenState -> list Event -> Prop :=
| reach_fresh : reachable env filter pollingInterval startDate TweetService.stream []
| reach_next fuel g tr r g' tr' :
    reachable env filter pollingInterval startDate g tr ->
    TweetService.resume env filter pollingInterval startDate fuel g tr = (r, g', tr') ->
    reachable env filter pollingInterval startDate g' tr'.

(** The table entries that are written out in the table itself, without a
    data-model constructor. *)
Definition literal (r : EResourceType) : bool :=
  match r with
  | MEDIA_UPLOAD_APPEND | MEDIA_UPLOAD_FINALIZE | MEDIA_UPLOAD_INITIALIZE
  | TWEET_RETWEET | TWEET_CREATE | TWEET_FAVORITE => true
  | _ => false
  end.


(** A filter that comes with a [sinceId] and a [startDate] of its own. *)
Definition since_filter : TweetFilter :=
  Filter.mk (Some ["u1"%string]) None (Some 7) (Some "999"%string) [].

(** Two tweets of the same second around a later one. *)
Definition tie_a : Tweet := mkTweet "1" "50" "a".
Definition tie_b : Tweet := mkTweet "2" "60" "b".
Definition tie_c : Tweet := mkTweet "3" "50" "c".

Definition tie_env : Env :=
  Mock.env [Ok (Mock.raw_page [tie_a; tie_b; tie_c] None)]
    (Throw (TransportError 404)).

(** A transport that is down. *)
Definition down_env : Env := Mock.env [] (Throw (TransportError 503)).



(** * Properties *)

(** ** [Array.prototype.sort] with a comparator that subtracts keys *)

Section SortByKey.
Variable A : Type.
Variable key : A -> Number.

Local Abbreviation cmp := (descending_cmp key).
Local Notation "a ~< b" := (not_after key a b) (at level 70).
Local Notation "a >=k b" := (at_least key a b) (at level 70).

Lemma not_after_asym a b : ~ a ~< b -> b ~< a.
Proof.
  unfold not_after, descending_cmp.
  destruct (key a) as [|ka], (key b) as [|kb]; simpl; try congruence.
  intros H. apply Z.ltb_ge.
  destruct (Z.ltb_spec 0 (kb - ka)); [lia | congruence].
Qed.

Lemma not_after_at_least a b :
  has_key key a -> has_key key b -> a ~< b -> a >=k b.
Proof.
  unfold has_key, not_after, at_least, descending_cmp.
  destruct (key a) as [|ka], (key b) as [|kb]; simpl; try congruence.
  intros _ _ H. apply Z.ltb_ge in H. lia.
Qed.

Lemma at_least_trans a b c : a >=k b -> b >=k c -> a >=k c.
Proof.
  unfold at_least.
  destruct (key a), (key b), (key c); try tauto. lia.
Qed.

Lemma insert_perm x l : Permutation (x :: l) (insert cmp x l).
Proof.
  induction l as [|y l IH]; simpl.
  - reflexivity.
  - destruct (goes_after (cmp x y)).
    + rewrite perm_swap. now apply perm_skip.
    + reflexivity.
Qed.

Lemma Array_sort_perm l : Permutation l (Array_sort cmp l).
Proof.
  induction l as [|x l IH]; simpl.
  - constructor.
  - rewrite <- insert_perm. now apply perm_skip.
Qed.

Lemma insert_HdRel y x l :
  y ~< x -> HdRel (not_after key) y l -> HdRel (not_after key) y (insert cmp x l).
Proof.
  intros Hyx Hl. destruct l as [|z l]; simpl.
  - now constructor.
  - destruct (goes_after (cmp x z)).
    + inversion Hl; subst. now constructor.
    + now constructor.
Qed.

Lemma insert_sorted x l :
  Sorted (not_after key) l -> Sorted (not_after key) (insert cmp x l).
Proof.
  induction l as [|y l IH]; simpl; intros Hs.
  - repeat constructor.
  - destruct (goes_after (cmp x y)) eqn:E.
    + inversion Hs; subst. constructor; [now apply IH|].
      apply insert_HdRel; [|assumption].
      apply not_after_asym. unfold not_after. congruence.
    + constructor; [assumption|]. now constructor.
Qed.

Lemma Array_sort_sorted l : Sorted (not_after key) (Array_sort cmp l).
Proof.
  induction l as [|x l IH]; simpl.
  - constructor.
  - now apply insert_sorted.
Qed.

(** With every key a time value the comparator is a total preorder, and a
    list whose neighbours are in order is in order throughout. *)
Lemma Sorted_at_least l :
  Forall (has_key key) l -> Sorted (not_after key) l ->
  StronglySorted (at_least key) l.
Proof.
  induction l as [|x l IH]; intros Hk Hs.
  - constructor.
  - inversion Hk as [|? ? Hx Hl]; subst. inversion Hs as [|? ? Hs' Hd]; subst.
    specialize (IH Hl Hs'). constructor; [assumption|].
    destruct l as [|y l]; [constructor|].
    inversion Hd; subst. inversion Hl; subst. inversion IH; subst.
    assert (Hxy : x >=k y) by now apply not_after_at_least.
    constructor; [assumption|].
    eapply Forall_impl; [|eassumption].
    intros z Hz. now apply at_least_trans with y.
Qed.

Lemma Array_sort_at_least l :
  Forall (has_key key) l -> StronglySorted (at_least key) (Array_sort cmp l).
Proof.
  intros Hk. apply Sorted_at_least.
  - eapply Permutation_Forall; [apply Array_sort_perm | assumption].
  - apply Array_sort_sorted.
Qed.

End SortByKey.

(** ** Search and list results are most recent first *)

(** On validly dated tweets the comparator of [search] and [list] is
    consistent, so the language fixes the arrangement. *)
Lemma consistent_valid {A} (key : A -> Number) l :
  Forall (has_key key) l -> consistent (descending_cmp key) l = true.
Proof.
  intros Hk. rewrite Forall_forall in Hk. unfold consistent.
  apply forallb_forall. intros a Ha. apply forallb_forall. intros b Hb.
  apply forallb_forall. intros c Hc.
  apply Hk in Ha, Hb, Hc. unfold has_key in Ha, Hb, Hc.
  unfold consistent_at, descending_cmp.
  destruct (key a) as [|ka], (key b) as [|kb], (key c) as [|kc];
    try congruence.
  cbn [sub is_NaN zero negative goes_after negb andb].
  rewrite Z.sub_diag. cbn [Z.eqb andb].
  repeat match goal with
         | |- context [(?x =? ?y)] => destruct (Z.eqb_spec x y)
         | |- context [(?x <? ?y)] => destruct (Z.ltb_spec x y)
         end; cbn; try reflexivity; lia.
Qed.

Lemma sort_by_date_valid env l :
  Forall (valid_date env) l ->
  TweetService.sort_by_date env l = Array_sort (descending_cmp (time env)) l.
Proof.
  intros Hk. unfold TweetService.sort_by_date.
  change (TweetService.by_date env) with (descending_cmp (time env)).
  now rewrite (consistent_valid (key := time env) Hk).
Qed.

Lemma sort_list_sorted_page env page tr :
  Forall (valid_date env) (list_ page) ->
  exists data,
    TweetService.sort_list env (Some page) tr = (Ok data, tr)
    /\ sorted_page env page data.
Proof.
  intros Hdates. eexists. split; [reflexivity|].
  constructor; cbn [list_ next]; rewrite ?(sort_by_date_valid Hdates).
  - reflexivity.
  - apply Array_sort_perm.
  - now apply (Array_sort_at_least (key := time env)).
Qed.

(** C1, as the code has it. For every raw response that extracts to a page
    of tweets whose [createdAt] are all valid dates, what
    [TweetService.search] (resource TWEET_SEARCH) and [TweetService.list]
    (resource LIST_TWEETS) return is that page with its list sorted by
    [createdAt] descending: the same cursor, the same tweets, every tweet
    at least as recent as all that follow it. *)
Theorem search_and_list_sort_valid_dates (env : Env) (raw : Value)
  (page : CursoredData Tweet) (tr : list Event)
  (Hpage : CursoredData_new env TWEET raw = Ok page)
  (Hdates : Forall (valid_date env) (list_ page)) :
  (forall query count cursor,
      transport env tr TWEET_SEARCH (ArgsFilter query count cursor) = Ok raw ->
      exists data,
        TweetService.search env query count cursor tr
        = (Ok data, tr ++ [EvRequest TWEET_SEARCH (ArgsFilter query count cursor)])
        /\ sorted_page env page data)
  /\
  (forall listId count cursor,
      transport env tr LIST_TWEETS (ArgsPage listId count cursor) = Ok raw ->
      exists data,
        TweetService.list env listId count cursor tr
        = (Ok data, tr ++ [EvRequest LIST_TWEETS (ArgsPage listId count cursor)])
        /\ sorted_page env page data).
Proof.
  split; intros * Hraw.
  - destruct (@sort_list_sorted_page env page
                (tr ++ [EvRequest TWEET_SEARCH (ArgsFilter query count cursor)])
                Hdates) as (data & Hrun & Hsorted).
    exists data. split; [|exact Hsorted].
    unfold TweetService.search, TweetService.request, TweetService.extract,
      bind, lift.
    rewrite Hraw. cbn [extractors]. rewrite Hpage. exact Hrun.
  - destruct (@sort_list_sorted_page env page
                (tr ++ [EvRequest LIST_TWEETS (ArgsPage listId count cursor)])
                Hdates) as (data & Hrun & Hsorted).
    exists data. split; [|exact Hsorted].
    unfold TweetService.list, TweetService.request, TweetService.extract,
      bind, lift.
    rewrite Hraw. cbn [extractors]. rewrite Hpage. exact Hrun.
Qed.

(** The example of C1 run through [search]: upstream order [T-1, T-3, T-2]
    comes back as [T-1, T-2, T-3]. *)
Lemma search_and_list_sort_valid_dates_witness :
  exists data,
    TweetService.search example_env from_u1 None None []
    = (Ok data, [EvRequest TWEET_SEARCH (ArgsFilter from_u1 None None)])
    /\ list_ data = [tweet_T1; tweet_T2; tweet_T3]
    /\ StronglySorted (most_recent_first example_env) (list_ data).
Proof.
  assert (Hdates : Forall (valid_date example_env)
                     [tweet_T1; tweet_T3; tweet_T2])
    by (repeat constructor; vm_compute; discriminate).
  destruct (proj1 (@search_and_list_sort_valid_dates example_env
                     (Mock.raw_page [tweet_T1; tweet_T3; tweet_T2] None)
                     _ [] eq_refl Hdates)
              from_u1 None None eq_refl) as (data & Hrun & Hsorted).
  exists data. split; [exact Hrun|]. split.
  - vm_compute in Hrun. injection Hrun as <-. reflexivity.
  - exact (descending Hsorted).
Defined.

(** C1 as stated fails: the reply [old, undated, recent], of a tweet of
    t = 1, a tweet whose [createdAt] is not a date and a tweet of t = 3,
    makes the comparator inconsistent; V8 finds the three already in one
    run, and [search] returns them as they came, the older tweet before
    the more recent one. *)
Lemma invalid_date_leaves_older_before_newer :
  TweetService.search undated_env from_u1 None None []
  = (Ok (mkCursoredData [old_tweet; undated_tweet; recent_tweet] None),
     [EvRequest TWEET_SEARCH (ArgsFilter from_u1 None None)])
  /\ time undated_env old_tweet = Fin 1
  /\ time undated_env undated_tweet = NaN
  /\ time undated_env recent_tweet = Fin 3
  /\ ~ most_recent_first undated_env old_tweet recent_tweet
  /\ ~ StronglySorted (most_recent_first undated_env)
        [old_tweet; undated_tweet; recent_tweet].
Proof.
  repeat split.
  - intros H. vm_compute in H. now apply H.
  - intros Hs. inversion Hs as [|? ? _ Hall]; subst.
    inversion Hall as [|? ? Hundated _]; subst.
    vm_compute in Hundated. exact Hundated.
Qed.

(** ** Boolean mutation outcomes *)

Lemma lift_bind {A B} (r : Result A) (k : A -> M B) tr :
  bind (lift r) k tr
  = match r with Ok a => k a tr | Throw e => (Throw e, tr) end.
Proof. reflexivity. Qed.

Lemma request_bind {B} env resource args (k : Value -> M B) tr :
  bind (TweetService.request env resource args) k tr
  = match transport env tr resource args with
    | Ok response => k response (tr ++ [EvRequest resource args])
    | Throw e => (Throw e, tr ++ [EvRequest resource args])
    end.
Proof. reflexivity. Qed.





(** ** Extraction and the shape of the envelope *)

(** C7, as the code has it. The table has no check of the envelope and
    raises no [MalformedResponse]: on every response that is not a JSON
    object the entries written out in the table default, exactly as they do
    for a missing nested field. MEDIA_UPLOAD_APPEND, MEDIA_UPLOAD_FINALIZE
    and TWEET_CREATE give absent, TWEET_RETWEET and TWEET_FAVORITE give
    [false], and MEDIA_UPLOAD_INITIALIZE gives absent, except on [null] and
    [undefined] where reading the property is a [TypeError]. *)
Theorem non_object_envelope_defaults (env : Env) (response : Value)
  (Hshape : is_object response = false) :
  extractors env MEDIA_UPLOAD_APPEND response = Ok None
  /\ extractors env MEDIA_UPLOAD_FINALIZE response = Ok None
  /\ extractors env TWEET_CREATE response = Ok None
  /\ extractors env TWEET_RETWEET response = Ok (Some false)
  /\ extractors env TWEET_FAVORITE response = Ok (Some false)
  /\ extractors env MEDIA_UPLOAD_INITIALIZE response
     = (if nullish response then Throw TypeError else Ok None)
  /\ extractors env TWEET_CREATE (VObj []) = Ok None
  /\ extractors env MEDIA_UPLOAD_INITIALIZE (VObj []) = Ok None.
Proof.
  destruct response; try discriminate Hshape; repeat split; reflexivity.
Qed.

Lemma non_object_envelope_defaults_witness :
  extractors example_env TWEET_CREATE (VStr "Service Unavailable") = Ok None
  /\ extractors example_env MEDIA_UPLOAD_INITIALIZE (VStr "Service Unavailable")
     = Ok None.
Proof.
  pose proof (non_object_envelope_defaults example_env
                (VStr "Service Unavailable") eq_refl)
    as (_ & _ & Hcreate & _ & _ & Hinit & _).
  split; [exact Hcreate | exact Hinit].
Defined.

(** C7 as stated fails: the response ["Service Unavailable"], a string, is
    not a JSON object, and extraction for MEDIA_UPLOAD_APPEND, TWEET_CREATE
    and TWEET_RETWEET returns a default, not the error
    [MalformedResponse]. *)
Lemma string_envelope_is_not_rejected :
  is_object (VStr "Service Unavailable") = false
  /\ extractors example_env MEDIA_UPLOAD_APPEND (VStr "Service Unavailable")
     = Ok None
  /\ extractors example_env TWEET_CREATE (VStr "Service Unavailable") = Ok None
  /\ extractors example_env TWEET_RETWEET (VStr "Service Unavailable")
     = Ok (Some false)
  /\ extractors example_env MEDIA_UPLOAD_APPEND (VStr "Service Unavailable")
     <> Throw MalformedResponse.
Proof.
  repeat split. discriminate.
Qed.

(** ** Cursored extraction is never absent *)

Lemma extract_bind {B} env response resource
  (k : option (ReturnType resource) -> M B) tr :
  bind (TweetService.extract env response resource) k tr
  = match extractors env resource response with
    | Ok data => k data tr
    | Throw e => (Throw e, tr)
    end.
Proof. reflexivity. Qed.



(** What [search] and [list] come to once the request has returned. *)
Lemma sorted_after_reply env raw tr :
  bind (TweetService.extract env raw TWEET_SEARCH)
    (fun data => TweetService.sort_list env data) tr
  = (match CursoredData_new env TWEET raw with
     | Ok page =>
         Ok (mkCursoredData (TweetService.sort_by_date env (list_ page))
               (next page))
     | Throw e => Throw e
     end, tr).
Proof.
  rewrite extract_bind. cbn [extractors].
  destruct (CursoredData_new env TWEET raw); reflexivity.
Qed.




(** ** The media upload *)

Lemma snoc_snoc {A} (tr : list A) a b : (tr ++ [a]) ++ [b] = tr ++ [a; b].
Proof. now rewrite <- app_assoc. Qed.

(** [upload] unfolded into the three replies it waits for. *)
Lemma upload_unfold env media tr :
  TweetService.upload env media tr
  = match TweetService.byte_size env media with
    | Throw e => (Throw e, tr)
    | Ok size =>
        match initialize env tr size with
        | Throw e => (Throw e, tr ++ firstn 1 (phases size VUndefined media))
        | Ok id =>
            match transport env (tr ++ firstn 1 (phases size id media))
                    MEDIA_UPLOAD_APPEND (ArgsUpload (UploadAppend id media)) with
            | Throw e => (Throw e, tr ++ firstn 2 (phases size id media))
            | Ok _ =>
                match transport env (tr ++ firstn 2 (phases size id media))
                        MEDIA_UPLOAD_FINALIZE (ArgsUpload (UploadId id)) with
                | Throw e => (Throw e, tr ++ phases size id media)
                | Ok _ => (Ok id, tr ++ phases size id media)
                end
            end
        end
    end.
Proof.
  unfold TweetService.upload, initialize, phases. simpl firstn.
  rewrite lift_bind.
  destruct (TweetService.byte_size env media) as [size|e]; [|reflexivity].
  rewrite request_bind.
  destruct (transport env tr MEDIA_UPLOAD_INITIALIZE _) as [reply|e];
    [|reflexivity].
  rewrite lift_bind.
  destruct (get reply "media_id_string") as [id|e]; [|reflexivity].
  rewrite request_bind.
  destruct (transport env _ MEDIA_UPLOAD_APPEND _) as [appended|e];
    [|now rewrite snoc_snoc].
  rewrite request_bind, snoc_snoc.
  destruct (transport env _ MEDIA_UPLOAD_FINALIZE _) as [finalized|e];
    unfold ret; now rewrite <- app_assoc.
Qed.

(** The size [upload] sends is the byte size of the payload. *)
Lemma byte_size_is_payload_size env media :
  TweetService.byte_size env media = payload_size env media.
Proof. destruct media; reflexivity. Qed.

Lemma upload_runs env media tr :
  upload_run env media tr
    (fst (TweetService.upload env media tr))
    (snd (TweetService.upload env media tr)).
Proof.
  rewrite upload_unfold, byte_size_is_payload_size.
  destruct (payload_size env media) as [size|e] eqn:Hsize;
    [|now apply size_failed].
  destruct (initialize env tr size) as [id|e] eqn:Hid;
    [|now apply initialize_failed].
  destruct (transport env _ MEDIA_UPLOAD_APPEND _) as [appended|e] eqn:Happ;
    [|now eapply append_failed].
  destruct (transport env _ MEDIA_UPLOAD_FINALIZE _) as [finalized|e] eqn:Hfin.
  - now eapply uploaded; eauto.
  - now eapply finalize_failed; eauto.
Qed.

(** Conversely, the replies of the environment decide what [upload]
    does. *)
Lemma upload_run_decides env media tr r tr' :
  upload_run env media tr r tr' ->
  TweetService.upload env media tr = (r, tr').
Proof.
  intros Hrun. rewrite upload_unfold, byte_size_is_payload_size.
  inversion Hrun as [e Hs | size e Hs Hi | size id e Hs Hi Ha
                    | size id a e Hs Hi Ha Hf | size id a f Hs Hi Ha Hf];
    subst; rewrite Hs; try reflexivity; rewrite Hi; try reflexivity;
    rewrite Ha; try reflexivity; now rewrite Hf.
Qed.

(** C5. For every media payload, the replies of the environment decide the
    run of [upload], and it is one of: the byte size cannot be read ([statSync]
    fails) and no request is made; or the requests made are a prefix of
    Initialize (carrying exactly the byte size of the payload: the size
    [statSync] reports for a path, the byte length of a buffer), Append
    (carrying the media id of the Initialize reply, and the payload),
    Finalize (carrying that same id), in this order, cut right after the
    first phase that fails, whose error is the result; or all three are
    made and the result is the media id of Initialize. *)
Theorem upload_three_phases_in_order (env : Env) (media : Media)
  (tr : list Event) :
  upload_run env media tr
    (fst (TweetService.upload env media tr))
    (snd (TweetService.upload env media tr))
  /\ (forall r tr',
        upload_run env media tr r tr' ->
        TweetService.upload env media tr = (r, tr'))
  /\ (forall id,
        fst (TweetService.upload env media tr) = Ok id ->
        exists size,
          match media with
          | MPath file => statSync_size env file = Ok size
          | MBuffer bytes => size = Z.of_nat (List.length bytes)
          end
          /\ initialize env tr size = Ok id
          /\ snd (TweetService.upload env media tr)
             = tr ++ [EvRequest MEDIA_UPLOAD_INITIALIZE (ArgsUpload (UploadSize size));
                      EvRequest MEDIA_UPLOAD_APPEND (ArgsUpload (UploadAppend id media));
                      EvRequest MEDIA_UPLOAD_FINALIZE (ArgsUpload (UploadId id))])
  /\ (forall e,
        fst (TweetService.upload env media tr) = Throw e ->
        exists size id k,
          (k <= 3)%nat
          /\ (k = 0%nat \/ payload_size env media = Ok size)
          /\ ((k <= 1)%nat \/ initialize env tr size = Ok id)
          /\ snd (TweetService.upload env media tr)
             = tr ++ firstn k (phases size id media)).
Proof.
  split; [apply upload_runs|]. split; [apply upload_run_decides|].
  pose proof (upload_runs env media tr) as Hrun.
  split.
  - intros id Hid. rewrite Hid in Hrun.
    remember (snd (TweetService.upload env media tr)) as tr' eqn:Etr.
    clear Etr Hid.
    inversion Hrun as [ | | | | size id' a f Hs Hi Ha Hf]; subst.
    exists size. split; [|split; [assumption | reflexivity]].
    destruct media; cbn in Hs; [assumption | congruence].
  - intros e He. rewrite He in Hrun.
    remember (snd (TweetService.upload env media tr)) as tr' eqn:Etr.
    clear Etr He.
    inversion Hrun as [e' Hs | size e' Hs Hi | size id e' Hs Hi Ha
                      | size id a e' Hs Hi Ha Hf | ]; subst.
    + exists 0, VUndefined, 0%nat. repeat split; [lia | now left | left; lia |].
      simpl. now rewrite app_nil_r.
    + exists size, VUndefined, 1%nat.
      repeat split; [lia | now right | left; lia].
    + exists size, id, 2%nat.
      repeat split; [lia | now right | now right].
    + exists size, id, 3%nat.
      repeat split; [lia | now right | now right].
Qed.

(** A file of 1024 bytes and a buffer of two bytes, each uploaded under
    the media id the Initialize reply carries. *)
Lemma upload_three_phases_in_order_witness :
  TweetService.upload upload_env (MPath "mountains.jpg") []
  = (Ok (VStr "710511363"),
     phases 1024 (VStr "710511363") (MPath "mountains.jpg"))
  /\ TweetService.upload upload_env (MBuffer [Byte.x00; Byte.x01]) []
     = (Ok (VStr "710511363"),
        phases 2 (VStr "710511363") (MBuffer [Byte.x00; Byte.x01])).
Proof.
  split.
  - apply (proj1 (proj2 (upload_three_phases_in_order upload_env
                           (MPath "mountains.jpg") []))).
    exact (uploaded upload_env (MPath "mountains.jpg") []
             (size := 1024) (id := VStr "710511363")
             eq_refl eq_refl eq_refl eq_refl).
  - apply (proj1 (proj2 (upload_three_phases_in_order upload_env
                           (MBuffer [Byte.x00; Byte.x01]) []))).
    exact (uploaded upload_env (MBuffer [Byte.x00; Byte.x01]) []
             (size := 2) (id := VStr "710511363")
             eq_refl eq_refl eq_refl eq_refl).
Defined.

(** C6, as the code has it. When the Initialize reply is an object without
    [media_id_string], [upload] raises nothing of its own: it goes on to
    Append and then Finalize with the id [undefined], and, both requests
    succeeding, returns [undefined]; an error can only be that of the
    Append or of the Finalize request. *)
Theorem upload_without_media_id_goes_on (env : Env) (media : Media)
  (tr : list Event) (size : Z) (reply : Value)
  (Hsize : TweetService.byte_size env media = Ok size)
  (Hreply : transport env tr MEDIA_UPLOAD_INITIALIZE (ArgsUpload (UploadSize size))
            = Ok reply)
  (Hnoid : get reply "media_id_string" = Ok VUndefined) :
  TweetService.upload env media tr
  = match transport env (tr ++ firstn 1 (phases size VUndefined media))
            MEDIA_UPLOAD_APPEND (ArgsUpload (UploadAppend VUndefined media)) with
    | Throw e => (Throw e, tr ++ firstn 2 (phases size VUndefined media))
    | Ok _ =>
        match transport env (tr ++ firstn 2 (phases size VUndefined media))
                MEDIA_UPLOAD_FINALIZE (ArgsUpload (UploadId VUndefined)) with
        | Throw e => (Throw e, tr ++ phases size VUndefined media)
        | Ok _ => (Ok VUndefined, tr ++ phases size VUndefined media)
        end
    end.
Proof.
  rewrite upload_unfold, Hsize. unfold initialize. rewrite Hreply, Hnoid.
  reflexivity.
Qed.

Lemma upload_without_media_id_goes_on_witness :
  TweetService.upload no_id_env (MBuffer [Byte.x00]) []
  = (Ok VUndefined, phases 1 VUndefined (MBuffer [Byte.x00])).
Proof.
  exact (upload_without_media_id_goes_on no_id_env (MBuffer [Byte.x00]) []
           (reply := VObj []) eq_refl eq_refl eq_refl).
Defined.

(** C6 as stated fails: answered [{}] by Initialize, [upload] of
    [mountains.jpg] does not fail with [UploadInitFailed]; it requests
    Append and Finalize under the id [undefined] and returns [undefined]. *)
Lemma upload_proceeds_without_media_id :
  transport no_id_env [] MEDIA_UPLOAD_INITIALIZE (ArgsUpload (UploadSize 1024))
  = Ok (VObj [])
  /\ prop (VObj []) "media_id_string" = VUndefined
  /\ TweetService.upload no_id_env (MPath "mountains.jpg") []
     = (Ok VUndefined,
        [EvRequest MEDIA_UPLOAD_INITIALIZE (ArgsUpload (UploadSize 1024));
         EvRequest MEDIA_UPLOAD_APPEND
           (ArgsUpload (UploadAppend VUndefined (MPath "mountains.jpg")));
         EvRequest MEDIA_UPLOAD_FINALIZE (ArgsUpload (UploadId VUndefined))])
  /\ fst (TweetService.upload no_id_env (MPath "mountains.jpg") [])
     <> Throw UploadInitFailed.
Proof.
  repeat split. discriminate.
Qed.

(** ** Posting with media *)









Lemma bind_unfold {A B} (c : M A) (k : A -> M B) tr :
  bind c k tr
  = match c tr with
    | (Ok a, tr') => k a tr'
    | (Throw e, tr') => (Throw e, tr')
    end.
Proof. reflexivity. Qed.




(** ** The stream generator *)

Lemma search_log env query count cursor tr :
  snd (TweetService.search env query count cursor tr)
  = tr ++ [EvRequest TWEET_SEARCH (ArgsFilter query count cursor)].
Proof.
  unfold TweetService.search. cbv zeta. rewrite request_bind.
  destruct (transport env tr TWEET_SEARCH _); [|reflexivity].
  now rewrite sorted_after_reply.
Qed.

(** At the head of the loop the generator sleeps and then searches, with
    the cursor and the [sinceId] of its state. *)
Lemma loop_head_sleeps_then_searches env filter pollingInterval startDate st tr :
  exists r g,
    TweetService.step env filter pollingInterval startDate (TweetService.LoopHead st) tr
    = (r, g,
       tr ++ [EvSleep pollingInterval;
              EvRequest TWEET_SEARCH
                (ArgsFilter (TweetService.query filter startDate st) None
                   (TweetService.cursor st))]).
Proof.
  unfold TweetService.step.
  pose proof (search_log env (TweetService.query filter startDate st) None
                (TweetService.cursor st) (tr ++ [EvSleep pollingInterval])) as Hlog.
  destruct (TweetService.search env _ None _ _) as [[tweets|e] tr'];
    simpl in Hlog; subst tr'; rewrite <- app_assoc; eexists _, _; reflexivity.
Qed.

(** C3, as the code has it. When a batch is non-empty and has a next
    cursor, the bookkeeping sets [cursor] to that token and leaves
    [sinceId] as it is, and control goes back to the head of the loop,
    where the generator, as before every search, first sleeps for the
    polling interval and only then issues the search with that cursor. *)
Theorem continuation_sleeps_then_searches (env : Env) (filter : TweetFilter)
  (pollingInterval startDate : Z) (st : TweetService.StreamState)
  (tweets : CursoredData Tweet) (first : Tweet) (rest : list Tweet)
  (c : Cursor) (tr : list Event)
  (Hbatch : list_ tweets = first :: rest)
  (Hnext : next tweets = Some c) :
  let st' := TweetService.after_batch st tweets in
  TweetService.step env filter pollingInterval startDate
    (TweetService.InBatch st tweets []) tr
  = (TweetService.Pending, TweetService.LoopHead st', tr)
  /\ TweetService.cursor st' = Some (value c)
  /\ TweetService.sinceId st' = TweetService.sinceId st
  /\ (exists r g,
        TweetService.step env filter pollingInterval startDate
          (TweetService.LoopHead st') tr
        = (r, g,
           tr ++ [EvSleep pollingInterval;
                  EvRequest TWEET_SEARCH
                    (ArgsFilter
                       (Filter.mk (Filter.fromUsers filter) (Filter.words filter)
                          (Some startDate) (TweetService.sinceId st)
                          (Filter.others filter))
                       None (Some (value c)))]))
  /\ (forall st0 tr0, exists r g,
        TweetService.step env filter pollingInterval startDate
          (TweetService.LoopHead st0) tr0
        = (r, g,
           tr0 ++ [EvSleep pollingInterval;
                   EvRequest TWEET_SEARCH
                     (ArgsFilter (TweetService.query filter startDate st0) None
                        (TweetService.cursor st0))])).
Proof.
  intros st'.
  assert (Hc : TweetService.cursor st' = Some (value c)).
  { unfold st', TweetService.after_batch. now rewrite Hbatch, Hnext. }
  assert (Hs : TweetService.sinceId st' = TweetService.sinceId st).
  { unfold st', TweetService.after_batch. now rewrite Hbatch, Hnext. }
  split; [reflexivity|]. split; [exact Hc|]. split; [exact Hs|]. split.
  - destruct (loop_head_sleeps_then_searches env filter pollingInterval
                startDate st' tr) as (r & g & Hstep).
    exists r, g. rewrite Hstep. unfold TweetService.query. now rewrite Hc, Hs.
  - intros st0 tr0. apply loop_head_sleeps_then_searches.
Qed.

Lemma continuation_sleeps_then_searches_witness :
  exists r g,
    TweetService.step backlog_env from_u1 1000 0
      (TweetService.LoopHead
         (TweetService.after_batch TweetService.initial
            (mkCursoredData [e1] (Some (mkCursor "scroll:1")))))
      (poll 0 None None ++ [EvYield e1])
    = (r, g,
       (poll 0 None None ++ [EvYield e1]) ++ poll 0 None (Some "scroll:1"%string)).
Proof.
  exact (proj1 (proj2 (proj2 (proj2
    (continuation_sleeps_then_searches backlog_env from_u1 1000 0
       TweetService.initial (mkCursoredData [e1] (Some (mkCursor "scroll:1")))
       (poll 0 None None ++ [EvYield e1]) eq_refl eq_refl))))).
Defined.

(** C3 as stated fails: the first batch, [e1], is non-empty and has the
    next cursor [scroll:1]; after yielding [e1] the generator does not
    search at once, it sleeps for the 1000 ms of the polling interval and
    then searches with that cursor. *)
Lemma backlog_page_waits_for_the_interval :
  exists g1 g2,
    TweetService.resume backlog_env from_u1 1000 0 3 TweetService.stream []
    = (TweetService.Yielded e1, g1,
       [EvSleep 1000;
        EvRequest TWEET_SEARCH (ArgsFilter (u1_since 0 None) None None);
        EvYield e1])
    /\ TweetService.resume backlog_env from_u1 1000 0 2 g1
         [EvSleep 1000;
          EvRequest TWEET_SEARCH (ArgsFilter (u1_since 0 None) None None);
          EvYield e1]
       = (TweetService.Pending, g2,
          [EvSleep 1000;
           EvRequest TWEET_SEARCH (ArgsFilter (u1_since 0 None) None None);
           EvYield e1;
           EvSleep 1000;
           EvRequest TWEET_SEARCH
             (ArgsFilter (u1_since 0 None) None (Some "scroll:1"%string))]).
Proof.
  eexists _, _. split; reflexivity.
Qed.

(** C4. [nextSinceId] is set, to the id of the first tweet of the batch,
    exactly at the end of a sub-page that was requested with no cursor and
    came back non-empty; at the end of every other sub-page (an empty
    batch, or one requested with a cursor) it keeps its value.  The state
    the bookkeeping starts from is the one the sub-page was requested
    with: the search is sent its cursor, and the yields do not touch
    it. *)
Theorem nextSinceId_set_on_first_subpage (env : Env) (filter : TweetFilter)
  (pollingInterval startDate : Z) (st : TweetService.StreamState)
  (tweets : CursoredData Tweet) :
  (forall first rest,
      list_ tweets = first :: rest -> TweetService.cursor st = None ->
      TweetService.nextSinceId (TweetService.after_batch st tweets)
      = Some (tweet_id first))
  /\ (list_ tweets = [] ->
      TweetService.nextSinceId (TweetService.after_batch st tweets)
      = TweetService.nextSinceId st)
  /\ (forall c,
        TweetService.cursor st = Some c ->
        TweetService.nextSinceId (TweetService.after_batch st tweets)
        = TweetService.nextSinceId st)
  /\ (forall tr,
        TweetService.step env filter pollingInterval startDate
          (TweetService.InBatch st tweets []) tr
        = (TweetService.Pending,
           TweetService.LoopHead (TweetService.after_batch st tweets), tr))
  /\ (forall tr tweet rest,
        TweetService.step env filter pollingInterval startDate
          (TweetService.InBatch st tweets (tweet :: rest)) tr
        = (TweetService.Yielded tweet, TweetService.InBatch st tweets rest,
           tr ++ [EvYield tweet]))
  /\ (forall tr page tr',
        TweetService.search env (TweetService.query filter startDate st) None
          (TweetService.cursor st) (tr ++ [EvSleep pollingInterval])
        = (Ok page, tr') ->
        TweetService.step env filter pollingInterval startDate
          (TweetService.LoopHead st) tr
        = (TweetService.Pending, TweetService.InBatch st page (list_ page), tr')).
Proof.
  unfold TweetService.after_batch.
  repeat split.
  - intros first rest -> ->. now destruct (next tweets).
  - intros ->. now destruct (TweetService.cursor st).
  - intros c ->. now destruct (list_ tweets), (next tweets).
  - intros tr page tr' Hsearch. simpl. now rewrite Hsearch.
Qed.

Lemma nextSinceId_set_on_first_subpage_witness :
  TweetService.nextSinceId
    (TweetService.after_batch TweetService.initial (mkCursoredData [e1; e2] None))
  = Some "1001"%string
  /\ TweetService.nextSinceId
       (TweetService.after_batch
          (TweetService.mkStreamState (Some "scroll:1"%string) None (Some "1001"%string))
          (mkCursoredData [e2] None))
     = Some "1001"%string.
Proof.
  split.
  - exact (proj1 (nextSinceId_set_on_first_subpage stream_env from_u1 1000 0
                    TweetService.initial (mkCursoredData [e1; e2] None))
             e1 [e2] eq_refl eq_refl).
  - exact (proj1 (proj2 (proj2 (nextSinceId_set_on_first_subpage stream_env
                    from_u1 1000 0
                    (TweetService.mkStreamState (Some "scroll:1"%string) None
                       (Some "1001"%string))
                    (mkCursoredData [e2] None))))
             "scroll:1"%string eq_refl).
Defined.

(** ** The streaming scenario *)

Lemma has_request_app tr evs : has_request tr -> has_request (tr ++ evs).
Proof.
  unfold has_request. rewrite filter_app, length_app. lia.
Qed.

(** From the second request on, the mocked search returns the empty
    batch. *)
Lemma search_after_first_round query tr :
  has_request tr ->
  TweetService.search stream_env query None None tr
  = (Ok (mkCursoredData [] None),
     tr ++ [EvRequest TWEET_SEARCH (ArgsFilter query None None)]).
Proof.
  unfold has_request. intros Hreq.
  unfold TweetService.search. cbv zeta. rewrite request_bind.
  unfold stream_env at 1, Mock.env, transport, Mock.scripted.
  destruct (List.length (filter Mock.is_request tr)) as [|[|n]];
    [lia | reflexivity | reflexivity].
Qed.

(** Past the first round the generator polls for ever: whatever the number
    of moves, no value, no error and no end, only sleeps and searches from
    the watermark. *)
Lemma idle_rounds startDate fuel :
  (forall tr, has_request tr ->
     exists g,
       TweetService.resume stream_env from_u1 1000 startDate fuel
         (TweetService.LoopHead watermark) tr
       = (TweetService.Pending, g,
          tr ++ polls startDate (Some "1001"%string) (Nat.div2 (S fuel))))
  /\ (forall tr st tweets, has_request tr ->
        TweetService.after_batch st tweets = watermark ->
        exists g,
          TweetService.resume stream_env from_u1 1000 startDate fuel
            (TweetService.InBatch st tweets []) tr
          = (TweetService.Pending, g,
             tr ++ polls startDate (Some "1001"%string) (Nat.div2 fuel))).
Proof.
  induction fuel as [|fuel [IHhead IHbatch]].
  - split; intros; eexists; simpl; now rewrite app_nil_r.
  - split.
    + intros tr Hreq. cbn [TweetService.resume TweetService.step].
      rewrite search_after_first_round by now apply has_request_app.
      cbn [list_].
      destruct (IHbatch ((tr ++ [EvSleep 1000]) ++
                         [EvRequest TWEET_SEARCH
                            (ArgsFilter
                               (TweetService.query from_u1 startDate watermark)
                               None None)])
                  watermark (mkCursoredData [] None)) as (g & Hg).
      * now do 2 apply has_request_app.
      * reflexivity.
      * exists g. rewrite Hg. f_equal.
        now rewrite <- !app_assoc.
    + intros tr st tweets Hreq Hst.
      cbn [TweetService.resume TweetService.step]. rewrite Hst.
      destruct (IHhead tr Hreq) as (g & Hg). exists g. exact Hg.
Qed.

(** C8. With the filter [{ fromUsers: ['u1'] }], a polling interval of
    1000 ms and a search that returns [e1 (t=5), e2 (t=3)] without next
    cursor on the first round and the empty batch afterwards: the first
    call of [next()] sleeps 1000 ms, searches (no [sinceId], no cursor) and
    yields [e1]; the second yields [e2]; the third never settles: for any
    number of moves it has only slept 1000 ms and searched again, with
    [sinceId] equal to the id of [e1] and no cursor, as many times as the
    moves allowed, and has neither yielded, nor failed, nor finished. *)
Theorem stream_scenario (startDate : Z) :
  let page := mkCursoredData [e1; e2] None in
  let round1 := poll startDate None None in
  (forall fuel,
      TweetService.resume stream_env from_u1 1000 startDate (3 + fuel)
        TweetService.stream []
      = (TweetService.Yielded e1,
         TweetService.InBatch TweetService.initial page [e2],
         round1 ++ [EvYield e1]))
  /\ (forall fuel,
        TweetService.resume stream_env from_u1 1000 startDate (1 + fuel)
          (TweetService.InBatch TweetService.initial page [e2])
          (round1 ++ [EvYield e1])
        = (TweetService.Yielded e2,
           TweetService.InBatch TweetService.initial page [],
           round1 ++ [EvYield e1; EvYield e2]))
  /\ (forall fuel,
        exists g,
          TweetService.resume stream_env from_u1 1000 startDate fuel
            (TweetService.InBatch TweetService.initial page [])
            (round1 ++ [EvYield e1; EvYield e2])
          = (TweetService.Pending, g,
             (round1 ++ [EvYield e1; EvYield e2])
             ++ polls startDate (Some (tweet_id e1)) (Nat.div2 fuel))).
Proof.
  intros page round1. split; [|split].
  - intros fuel. reflexivity.
  - intros fuel. reflexivity.
  - intros fuel.
    apply (proj2 (idle_rounds startDate fuel)).
    + unfold has_request. simpl. lia.
    + reflexivity.
Qed.

(** * Further properties *)

(** ** What [search] and [list] return *)

Lemma search_run env query count cursor tr raw (page : CursoredData Tweet) :
  transport env tr TWEET_SEARCH (ArgsFilter query count cursor) = Ok raw ->
  CursoredData_new env TWEET raw = Ok page ->
  TweetService.search env query count cursor tr
  = (Ok (mkCursoredData (TweetService.sort_by_date env (list_ page)) (next page)),
     tr ++ [EvRequest TWEET_SEARCH (ArgsFilter query count cursor)]).
Proof.
  intros Hraw Hpage. unfold TweetService.search. cbv zeta.
  rewrite request_bind, Hraw, sorted_after_reply, Hpage. reflexivity.
Qed.

Lemma list_run env listId count cursor tr raw (page : CursoredData Tweet) :
  transport env tr LIST_TWEETS (ArgsPage listId count cursor) = Ok raw ->
  CursoredData_new env TWEET raw = Ok page ->
  TweetService.list env listId count cursor tr
  = (Ok (mkCursoredData (TweetService.sort_by_date env (list_ page)) (next page)),
     tr ++ [EvRequest LIST_TWEETS (ArgsPage listId count cursor)]).
Proof.
  intros Hraw Hpage. unfold TweetService.list. cbv zeta.
  rewrite request_bind, Hraw, extract_bind. cbn [extractors].
  rewrite Hpage. reflexivity.
Qed.

Section Stability.
Variable A : Type.
Variable key : A -> Number.

Local Abbreviation cmp := (descending_cmp key).
Local Abbreviation keyed k := (fun a => Number_eqb (key a) k).

Lemma Number_eqb_eq a b : Number_eqb a b = true -> a = b.
Proof.
  destruct a, b; simpl; try discriminate; try reflexivity.
  intros H. apply Z.eqb_eq in H. now subst.
Qed.

Lemma same_key_not_after a b : key a = key b -> goes_after (cmp a b) = false.
Proof.
  unfold descending_cmp. intros ->.
  destruct (key b); simpl; [reflexivity|].
  rewrite Z.sub_diag. reflexivity.
Qed.

(** An inserted element never passes one of its own key. *)
Lemma insert_keyed x l k :
  filter (keyed k) (insert cmp x l) = filter (keyed k) (x :: l).
Proof.
  induction l as [|y l IH]; [reflexivity|].
  cbn [insert]. destruct (goes_after (cmp x y)) eqn:Hafter; [|reflexivity].
  cbn [filter] in *. rewrite IH.
  destruct (Number_eqb (key x) k) eqn:Hx, (Number_eqb (key y) k) eqn:Hy;
    try reflexivity.
  apply Number_eqb_eq in Hx, Hy.
  rewrite same_key_not_after in Hafter by congruence. discriminate.
Qed.

Lemma Array_sort_keyed l k :
  filter (keyed k) (Array_sort cmp l) = filter (keyed k) l.
Proof.
  induction l as [|x l IH]; [reflexivity|].
  cbn [Array_sort fold_right]. fold (Array_sort cmp l).
  rewrite insert_keyed. cbn [filter]. now rewrite IH.
Qed.

(** A list whose neighbours are in order is left as it is. *)
Lemma Array_sort_fixes_sorted l :
  Sorted (not_after key) l -> Array_sort cmp l = l.
Proof.
  induction l as [|x l IH]; intros Hs; [reflexivity|].
  inversion Hs as [|? ? Hl Hd]; subst.
  cbn [Array_sort fold_right]. fold (Array_sort cmp l). rewrite (IH Hl).
  destruct l as [|y l]; [reflexivity|].
  inversion Hd as [|? ? Hxy]; subst. cbn [insert].
  unfold not_after in Hxy. now rewrite Hxy.
Qed.

End Stability.

Lemma at_least_not_after {A} (key : A -> Number) a b :
  at_least key a b -> not_after key a b.
Proof.
  unfold at_least, not_after, descending_cmp.
  destruct (key a) as [|ka], (key b) as [|kb]; cbn; try tauto.
  intros H. apply Z.ltb_ge. lia.
Qed.

Lemma most_recent_first_neighbours env l :
  StronglySorted (most_recent_first env) l -> Sorted (not_after (time env)) l.
Proof.
  intros Hs. apply StronglySorted_Sorted in Hs.
  induction Hs as [|x l Hl IH Hd]; constructor; [assumption|].
  destruct Hd; constructor. now apply at_least_not_after.
Qed.

(** X1. On a reply whose tweets all have a valid [createdAt] the sort of
    [search] and [list] is stable: among the tweets of the reply that have
    one and the same date, the order of the reply is kept. *)
Theorem search_and_list_keep_ties_in_upstream_order (env : Env) (raw : Value)
  (page : CursoredData Tweet) (tr : list Event) (k : Number)
  (Hpage : CursoredData_new env TWEET raw = Ok page)
  (Hdates : Forall (valid_date env) (list_ page)) :
  (forall query count cursor,
      transport env tr TWEET_SEARCH (ArgsFilter query count cursor) = Ok raw ->
      exists data,
        fst (TweetService.search env query count cursor tr) = Ok data
        /\ dated env k (list_ data) = dated env k (list_ page))
  /\ (forall listId count cursor,
        transport env tr LIST_TWEETS (ArgsPage listId count cursor) = Ok raw ->
        exists data,
          fst (TweetService.list env listId count cursor tr) = Ok data
          /\ dated env k (list_ data) = dated env k (list_ page)).
Proof.
  split; intros * Hraw.
  - rewrite (@search_run env _ _ _ _ _ _ Hraw Hpage). eexists. split; [reflexivity|].
    cbn [list_]. rewrite (sort_by_date_valid Hdates).
    apply (Array_sort_keyed (time env)).
  - rewrite (@list_run env _ _ _ _ _ _ Hraw Hpage). eexists. split; [reflexivity|].
    cbn [list_]. rewrite (sort_by_date_valid Hdates).
    apply (Array_sort_keyed (time env)).
Qed.

Lemma search_and_list_keep_ties_in_upstream_order_witness :
  exists data,
    fst (TweetService.search tie_env from_u1 None None []) = Ok data
    /\ list_ data = [tie_b; tie_a; tie_c]
    /\ dated tie_env (Fin 50) (list_ data) = [tie_a; tie_c].
Proof.
  assert (Hdates : Forall (valid_date tie_env) [tie_a; tie_b; tie_c])
    by (repeat constructor; vm_compute; discriminate).
  destruct (proj1 (@search_and_list_keep_ties_in_upstream_order tie_env
                     (Mock.raw_page [tie_a; tie_b; tie_c] None) _ [] (Fin 50)
                     eq_refl Hdates)
              from_u1 None None eq_refl) as (data & Hrun & Hties).
  exists data. split; [exact Hrun|]. split.
  - vm_compute in Hrun. injection Hrun as <-. reflexivity.
  - rewrite Hties. reflexivity.
Defined.

(** X2. A reply whose tweets all have a valid [createdAt] and already come
    most recent first is returned as extracted, list and cursor untouched;
    and sorting what [search] returned for validly dated tweets once more
    changes nothing. *)
Theorem sorted_reply_is_returned_unchanged (env : Env) (raw : Value)
  (page : CursoredData Tweet) (tr : list Event) (query : TweetFilter)
  (count : option Z) (cursor : option string)
  (Hraw : transport env tr TWEET_SEARCH (ArgsFilter query count cursor) = Ok raw)
  (Hpage : CursoredData_new env TWEET raw = Ok page)
  (Hdates : Forall (valid_date env) (list_ page)) :
  (StronglySorted (most_recent_first env) (list_ page) ->
   fst (TweetService.search env query count cursor tr) = Ok page)
  /\ (forall data,
        fst (TweetService.search env query count cursor tr) = Ok data ->
        TweetService.sort_by_date env (list_ data) = list_ data).
Proof.
  rewrite (@search_run env _ _ _ _ _ _ Hraw Hpage). cbn [fst].
  rewrite (sort_by_date_valid Hdates).
  assert (Hsorted_dates :
            Forall (valid_date env)
              (Array_sort (descending_cmp (time env)) (list_ page))).
  { eapply Permutation_Forall; [apply Array_sort_perm | exact Hdates]. }
  split.
  - intros Hs.
    rewrite (Array_sort_fixes_sorted (key := time env)
               (most_recent_first_neighbours Hs)).
    now destruct page.
  - intros data [= <-]. cbn [list_].
    rewrite (sort_by_date_valid Hsorted_dates).
    apply (Array_sort_fixes_sorted (key := time env)).
    apply (Array_sort_sorted (time env)).
Qed.

Lemma sorted_reply_is_returned_unchanged_witness :
  fst (TweetService.search stream_env from_u1 None None [])
  = Ok (mkCursoredData [e1; e2] None).
Proof.
  refine (proj1 (@sorted_reply_is_returned_unchanged stream_env
                   (Mock.raw_page [e1; e2] None) _ [] from_u1 None None
                   eq_refl eq_refl _) _).
  - repeat constructor; vm_compute; discriminate.
  - repeat constructor; vm_compute; discriminate.
Defined.

(** ** One request per call *)


(** ** Scalar extraction *)

Lemma defined_coalesce v w :
  defined (coalesce v VUndefined) = Some w -> nullish w = false.
Proof.
  destruct v; simpl; intros H; try discriminate H;
    injection H as <-; reflexivity.
Qed.

Lemma post_result env options tr o :
  fst (TweetService.post env options tr) = Ok o ->
  exists response, extractors env TWEET_CREATE response = Ok o.
Proof.
  unfold TweetService.post. cbv zeta. rewrite lift_bind.
  destruct (TweetArgs_new env options) as [tweet|e]; [|discriminate].
  rewrite bind_unfold.
  destruct (match media tweet with
            | Some items => TweetService.upload_items env items []
            | None => ret []
            end tr) as [[uploaded|e] tr1]; [|discriminate].
  rewrite request_bind.
  destruct (transport env tr1 TWEET_CREATE _) as [response|e]; [|discriminate].
  rewrite extract_bind. exists response.
  destruct (extractors env TWEET_CREATE response); cbn in *; congruence.
Qed.

(** X5. The scalar extractors never produce [null]: a TWEET_CREATE or
    MEDIA_UPLOAD_INITIALIZE reply whose id is [null] or missing extracts to
    absent; TWEET_CREATE never throws; and so the id [post] returns is
    either absent or a value that is neither [null] nor [undefined]. *)
Theorem scalar_extraction_is_never_null (env : Env) :
  (forall response, exists o, extractors env TWEET_CREATE response = Ok o)
  /\ (forall response v,
        extractors env TWEET_CREATE response = Ok (Some v) -> nullish v = false)
  /\ (forall response v,
        extractors env MEDIA_UPLOAD_INITIALIZE response = Ok (Some v) ->
        nullish v = false)
  /\ (forall options tr v,
        fst (TweetService.post env options tr) = Ok (Some v) ->
        nullish v = false).
Proof.
  assert (Hcreate : forall response v,
             extractors env TWEET_CREATE response = Ok (Some v) ->
             nullish v = false).
  { intros response v H. unfold extractors in H. injection H as H.
    now apply defined_coalesce in H. }
  split; [intros; eexists; reflexivity|]. split; [exact Hcreate|]. split.
  - intros response v. unfold extractors.
    destruct (get response "media_id_string") as [id|e]; [|discriminate].
    intros [= H]. now apply defined_coalesce in H.
  - intros options tr v Hpost.
    destruct (post_result _ _ _ Hpost) as (response & Hx).
    now apply (Hcreate response).
Qed.

Lemma scalar_extraction_is_never_null_witness :
  nullish (VStr "99") = false.
Proof.
  exact (proj1 (proj2 (scalar_extraction_is_never_null example_env))
           (created "99") (VStr "99") eq_refl).
Defined.

(** X6. Among the entries written out in the table, the only one that can
    throw is MEDIA_UPLOAD_INITIALIZE, only on the responses [null] and
    [undefined], and what it throws is a [TypeError]; the other five
    return for every response. *)
Theorem literal_extractors_throw_only_on_null (env : Env) (r : EResourceType)
  (response : Value) (e : Error)
  (Hliteral : literal r = true)
  (Hthrow : extractors env r response = Throw e) :
  r = MEDIA_UPLOAD_INITIALIZE /\ nullish response = true /\ e = TypeError.
Proof.
  destruct r; try discriminate Hliteral; try discriminate Hthrow.
  unfold extractors, get in Hthrow.
  destruct (nullish response); [|discriminate Hthrow].
  injection Hthrow as <-. now repeat split.
Qed.

Lemma literal_extractors_throw_only_on_null_witness :
  MEDIA_UPLOAD_INITIALIZE = MEDIA_UPLOAD_INITIALIZE
  /\ nullish VNull = true /\ TypeError = TypeError.
Proof.
  exact (literal_extractors_throw_only_on_null example_env
           MEDIA_UPLOAD_INITIALIZE VNull eq_refl eq_refl).
Defined.

(** ** Runs of the generator *)

Lemma paced_app pollingInterval evs evs' :
  paced pollingInterval evs -> paced pollingInterval evs' ->
  paced pollingInterval (evs ++ evs').
Proof.
  induction 1; intros H'; simpl; [assumption | | ]; constructor; auto.
Qed.

(** What one move adds to the log. *)
Lemma step_log env filter pollingInterval startDate g tr :
  exists evs,
    snd (TweetService.step env filter pollingInterval startDate g tr) = tr ++ evs
    /\ paced pollingInterval evs.
Proof.
  destruct g as [|st|st tweets [|tweet rest]|].
  - exists []. split; [now rewrite app_nil_r | constructor].
  - destruct (loop_head_sleeps_then_searches env filter pollingInterval
                startDate st tr) as (r & g & Hstep).
    rewrite Hstep. eexists. split; [reflexivity|]. repeat constructor.
  - exists []. split; [now rewrite app_nil_r | constructor].
  - eexists. split; [reflexivity|]. repeat constructor.
  - exists []. split; [now rewrite app_nil_r | constructor].
Qed.

(** [resume] unfolded by one move. *)
Lemma resume_S env filter pollingInterval startDate fuel g tr :
  TweetService.resume env filter pollingInterval startDate (S fuel) g tr
  = match TweetService.step env filter pollingInterval startDate g tr with
    | (TweetService.Pending, g', tr') =>
        TweetService.resume env filter pollingInterval startDate fuel g' tr'
    | settled => settled
    end.
Proof. reflexivity. Qed.

Lemma resume_log env filter pollingInterval startDate fuel :
  forall g tr,
  exists evs,
    snd (TweetService.resume env filter pollingInterval startDate fuel g tr)
    = tr ++ evs
    /\ paced pollingInterval evs.
Proof.
  induction fuel as [|fuel IH]; intros g tr.
  - exists []. split; [simpl; now rewrite app_nil_r | constructor].
  - rewrite resume_S.
    destruct (step_log env filter pollingInterval startDate g tr)
      as (evs & Hlog & Hpaced).
    destruct (TweetService.step env filter pollingInterval startDate g tr)
      as [[r g'] tr'].
    cbn [snd] in Hlog. subst tr'.
    destruct r; try (exists evs; split; [reflexivity | assumption]).
    destruct (IH g' (tr ++ evs)) as (evs' & Hlog' & Hpaced').
    exists (evs ++ evs'). split; [now rewrite Hlog', app_assoc|].
    now apply paced_app.
Qed.

(** X7. Whatever the state of the generator, however many times the
    consumer calls [next()] and however long each call runs, what is added
    to the log is paced: every search request comes immediately after a
    sleep of the polling interval, so no two searches are ever made without
    a full interval between them, and no request other than TWEET_SEARCH
    is made. *)
Theorem generator_log_is_paced (env : Env) (filter : TweetFilter)
  (pollingInterval startDate : Z) (n fuel : nat) :
  forall g tr,
  exists evs,
    snd (pull env filter pollingInterval startDate n fuel g tr) = tr ++ evs
    /\ paced pollingInterval evs.
Proof.
  induction n as [|n IH]; intros g tr.
  - exists []. split; [simpl; now rewrite app_nil_r | constructor].
  - cbn [pull].
    destruct (resume_log env filter pollingInterval startDate fuel g tr)
      as (evs & Hlog & Hpaced).
    destruct (TweetService.resume env filter pollingInterval startDate fuel g tr)
      as [[r g'] tr'].
    cbn [snd] in Hlog. subst tr'.
    destruct (IH g' (tr ++ evs)) as (evs' & Hlog' & Hpaced').
    destruct (pull env filter pollingInterval startDate n fuel g' (tr ++ evs))
      as [[rs g''] tr''].
    cbn [snd] in *. subst tr''.
    exists (evs ++ evs'). split; [now rewrite app_assoc|].
    now apply paced_app.
Qed.

(** ** The watermarks are delivered tweets *)

Lemma delivered_app tr evs id : delivered tr id -> delivered (tr ++ evs) id.
Proof.
  destruct id as [i|]; [|trivial].
  intros (tweet & Hin & Hid). exists tweet. split; [|assumption].
  apply in_or_app. now left.
Qed.

Lemma watermarks_delivered_app tr evs st :
  watermarks_delivered tr st -> watermarks_delivered (tr ++ evs) st.
Proof.
  intros (Hs & Hn & Heq). repeat split; auto using delivered_app.
Qed.

(** The bookkeeping after a batch that has been yielded in full. *)
Lemma after_batch_delivered tr st tweets :
  watermarks_delivered tr st ->
  Forall (fun tweet => In (EvYield tweet) tr) (list_ tweets) ->
  watermarks_delivered tr (TweetService.after_batch st tweets).
Proof.
  intros (Hs & Hn & Heq) Hall.
  assert (Hnext : delivered tr
            match list_ tweets, TweetService.cursor st with
            | first :: _, None => Some (tweet_id first)
            | _, _ => TweetService.nextSinceId st
            end).
  { destruct (list_ tweets) as [|first rest]; [assumption|].
    destruct (TweetService.cursor st); [assumption|].
    inversion Hall; subst. now exists first. }
  unfold TweetService.after_batch.
  destruct (list_ tweets) as [|first rest];
    [|destruct (next tweets) as [c|]]; repeat split; cbn; auto; discriminate.
Qed.

Lemma step_keeps_generator_ok env filter pollingInterval startDate g tr :
  generator_ok g tr ->
  generator_ok
    (snd (fst (TweetService.step env filter pollingInterval startDate g tr)))
    (snd (TweetService.step env filter pollingInterval startDate g tr)).
Proof.
  destruct g as [|st|st tweets [|tweet rest]|]; intros Hok.
  - cbn. repeat split.
  - cbn [TweetService.step].
    pose proof (search_log env (TweetService.query filter startDate st) None
                  (TweetService.cursor st) (tr ++ [EvSleep pollingInterval]))
      as Hlog.
    destruct (TweetService.search env _ None _ _) as [[tweets|e] tr'];
      cbn [fst snd] in *; [|exact I].
    subst tr'. split; [now do 2 apply watermarks_delivered_app|].
    exists []. split; [reflexivity | constructor].
  - cbn in *. destruct Hok as (Hst & done & Hdone & Hall).
    rewrite app_nil_r in Hdone. subst done.
    now apply after_batch_delivered.
  - cbn in *. destruct Hok as (Hst & done & Hdone & Hall).
    split; [now apply watermarks_delivered_app|].
    exists (done ++ [tweet]). split; [now rewrite <- app_assoc|].
    apply Forall_app. split.
    + eapply Forall_impl; [|exact Hall].
      intros t Ht. apply in_or_app. now left.
    + constructor; [|constructor]. apply in_or_app. right. now left.
  - cbn. trivial.
Qed.

Lemma resume_keeps_generator_ok env filter pollingInterval startDate fuel :
  forall g tr,
  generator_ok g tr ->
  generator_ok
    (snd (fst (TweetService.resume env filter pollingInterval startDate fuel g tr)))
    (snd (TweetService.resume env filter pollingInterval startDate fuel g tr)).
Proof.
  induction fuel as [|fuel IH]; intros g tr Hok; [exact Hok|].
  rewrite resume_S.
  pose proof (step_keeps_generator_ok env filter pollingInterval startDate
                g tr Hok) as Hstep.
  destruct (TweetService.step env filter pollingInterval startDate g tr)
    as [[r g'] tr'].
  cbn [fst snd] in Hstep.
  destruct r; try exact Hstep. now apply IH.
Qed.

(** X8. However a consumer drives a fresh generator, the watermarks it
    holds are delivered tweets: [sinceId] and [nextSinceId] are each
    absent or the id of a tweet already yielded, so a search never
    excludes tweets by an id the consumer was not given; between rounds
    (no cursor) the two agree; and inside a batch exactly the tweets no
    longer waiting have been yielded. *)
Theorem watermarks_are_delivered_tweets (env : Env) (filter : TweetFilter)
  (pollingInterval startDate : Z) (g : TweetService.GenState)
  (tr : list Event)
  (Hreach : reachable env filter pollingInterval startDate g tr) :
  generator_ok g tr.
Proof.
  induction Hreach as [|fuel g tr r g' tr' _ IH Hrun].
  - exact I.
  - pose proof (resume_keeps_generator_ok env filter pollingInterval
                  startDate fuel g tr IH) as Hok.
    now rewrite Hrun in Hok.
Qed.

Lemma watermarks_are_delivered_tweets_witness :
  generator_ok
    (TweetService.LoopHead watermark)
    (poll 0 None None ++ [EvYield e1; EvYield e2]).
Proof.
  apply (watermarks_are_delivered_tweets (env := stream_env)
           (filter := from_u1) (pollingInterval := 1000) (startDate := 0)).
  apply reach_next with (fuel := 1%nat) (r := TweetService.Pending)
    (g := TweetService.InBatch TweetService.initial
            (mkCursoredData [e1; e2] None) [])
    (tr := poll 0 None None ++ [EvYield e1; EvYield e2]); [|reflexivity].
  apply reach_next with (fuel := 1%nat) (r := TweetService.Yielded e2)
    (g := TweetService.InBatch TweetService.initial
            (mkCursoredData [e1; e2] None) [e2])
    (tr := poll 0 None None ++ [EvYield e1]); [|reflexivity].
  apply reach_next with (fuel := 3%nat) (r := TweetService.Yielded e1)
    (g := TweetService.stream) (tr := []); [|reflexivity].
  apply reach_fresh.
Defined.

(** ** A batch is handed out in order *)

Lemma pull_batch env filter pollingInterval startDate st tweets fuel rest :
  forall tr,
  pull env filter pollingInterval startDate (List.length rest) (S fuel)
    (TweetService.InBatch st tweets rest) tr
  = (map TweetService.Yielded rest, TweetService.InBatch st tweets [],
     tr ++ map EvYield rest).
Proof.
  induction rest as [|tweet rest IH]; intros tr.
  - simpl. now rewrite app_nil_r.
  - cbn [List.length pull]. rewrite resume_S. cbn [TweetService.step].
    rewrite IH. cbn [map]. now rewrite <- app_assoc.
Qed.

(** X9. The tweets of a batch are yielded one per call of [next()], in the
    order [search] returned them, and nothing happens in between: the
    first call of a round sleeps and searches once, the following ones
    only hand out the next tweet, without sleeping or requesting. *)
Theorem batch_is_yielded_in_order (env : Env) (filter : TweetFilter)
  (pollingInterval startDate : Z) (st : TweetService.StreamState)
  (tweets : CursoredData Tweet) (fuel : nat) (tr tr' : list Event)
  (first : Tweet) (rest : list Tweet)
  (Hsearch : TweetService.search env (TweetService.query filter startDate st)
               None (TweetService.cursor st) (tr ++ [EvSleep pollingInterval])
             = (Ok tweets, tr'))
  (Hbatch : list_ tweets = first :: rest) :
  pull env filter pollingInterval startDate (List.length (list_ tweets))
    (2 + fuel) (TweetService.LoopHead st) tr
  = (map TweetService.Yielded (list_ tweets),
     TweetService.InBatch st tweets [],
     tr ++ [EvSleep pollingInterval;
            EvRequest TWEET_SEARCH
              (ArgsFilter (TweetService.query filter startDate st) None
                 (TweetService.cursor st))]
        ++ map EvYield (list_ tweets)).
Proof.
  pose proof (search_log env (TweetService.query filter startDate st) None
                (TweetService.cursor st) (tr ++ [EvSleep pollingInterval]))
    as Hlog.
  rewrite Hsearch in Hlog. cbn [snd] in Hlog. rewrite <- app_assoc in Hlog.
  rewrite Hbatch. change (2 + fuel)%nat with (S (S fuel)).
  cbn [List.length pull].
  rewrite resume_S. cbn [TweetService.step]. rewrite Hsearch, Hbatch.
  rewrite resume_S. cbn [TweetService.step].
  rewrite (pull_batch env filter pollingInterval startDate st tweets (S fuel)).
  subst tr'. cbn [map]. now rewrite <- !app_assoc.
Qed.

Lemma batch_is_yielded_in_order_witness :
  pull stream_env from_u1 1000 0 2 2 (TweetService.LoopHead TweetService.initial) []
  = ([TweetService.Yielded e1; TweetService.Yielded e2],
     TweetService.InBatch TweetService.initial (mkCursoredData [e1; e2] None) [],
     poll 0 None None ++ [EvYield e1; EvYield e2]).
Proof.
  exact (batch_is_yielded_in_order stream_env from_u1 1000 0
           TweetService.initial (tweets := mkCursoredData [e1; e2] None) 0 []
           eq_refl eq_refl).
Defined.

(** ** A failed search ends the stream *)

Lemma pull_completed env filter pollingInterval startDate fuel n :
  forall tr,
  pull env filter pollingInterval startDate n (S fuel) TweetService.Completed tr
  = (repeat TweetService.Finished n, TweetService.Completed, tr).
Proof.
  induction n as [|n IH]; intros tr; [reflexivity|].
  cbn [pull]. rewrite resume_S. cbn [TweetService.step]. now rewrite IH.
Qed.

(** X10. When the request of a search fails, the call of [next()] that
    made it is rejected with the error of the request, after the sleep and
    that one request; the generator is then finished: every later call
    reports [done] and neither sleeps nor requests again. *)
Theorem failed_search_ends_the_stream (env : Env) (filter : TweetFilter)
  (pollingInterval startDate : Z) (st : TweetService.StreamState)
  (tr : list Event) (e : Error)
  (Hfail : transport env (tr ++ [EvSleep pollingInterval]) TWEET_SEARCH
             (ArgsFilter (TweetService.query filter startDate st) None
                (TweetService.cursor st)) = Throw e) :
  forall fuel n,
    pull env filter pollingInterval startDate (S n) (S fuel)
      (TweetService.LoopHead st) tr
    = (TweetService.Thrown e :: repeat TweetService.Finished n,
       TweetService.Completed,
       tr ++ [EvSleep pollingInterval;
              EvRequest TWEET_SEARCH
                (ArgsFilter (TweetService.query filter startDate st) None
                   (TweetService.cursor st))]).
Proof.
  intros fuel n. cbn [pull]. rewrite resume_S. cbn [TweetService.step].
  unfold TweetService.search. cbv zeta. rewrite request_bind, Hfail.
  rewrite pull_completed. now rewrite <- app_assoc.
Qed.

Lemma failed_search_ends_the_stream_witness :
  pull down_env from_u1 1000 0 3 5 (TweetService.LoopHead TweetService.initial) []
  = ([TweetService.Thrown (TransportError 503); TweetService.Finished;
      TweetService.Finished],
     TweetService.Completed, poll 0 None None).
Proof.
  exact (failed_search_ends_the_stream down_env from_u1 1000 0
           TweetService.initial [] eq_refl 4 2).
Defined.

(** ** What the first search asks for *)

(** X11. Whatever [startDate] and [sinceId] the caller put into the
    filter, they do not reach the upstream: the first call of [next()]
    sleeps and then searches with the caller's other fields, [startDate]
    replaced by the time the generator started, [sinceId] absent and no
    cursor. *)
Theorem stream_replaces_the_filter_bounds (env : Env) (filter : TweetFilter)
  (pollingInterval startDate : Z) (fuel : nat) :
  exists evs,
    snd (TweetService.resume env filter pollingInterval startDate (2 + fuel)
           TweetService.stream [])
    = [EvSleep pollingInterval;
       EvRequest TWEET_SEARCH
         (ArgsFilter
            (Filter.mk (Filter.fromUsers filter) (Filter.words filter)
               (Some startDate) None (Filter.others filter))
            None None)]
      ++ evs.
Proof.
  change (2 + fuel)%nat with (S (S fuel)).
  rewrite resume_S. cbn [TweetService.step TweetService.stream].
  rewrite resume_S.
  destruct (loop_head_sleeps_then_searches env filter pollingInterval
              startDate TweetService.initial []) as (r & g & Hstep).
  rewrite Hstep.
  destruct r; try (exists []; reflexivity).
  destruct (resume_log env filter pollingInterval startDate fuel g
              [EvSleep pollingInterval;
               EvRequest TWEET_SEARCH
                 (ArgsFilter
                    (TweetService.query filter startDate TweetService.initial)
                    None (TweetService.cursor TweetService.initial))])
    as (evs & Hlog & _).
  exists evs. exact Hlog.
Qed.

(** ** The watermark of a first page *)

Lemma at_least_refl {A} (key : A -> Number) a : has_key key a -> at_least key a a.
Proof.
  unfold has_key, at_least. destruct (key a); [congruence | lia].
Qed.

(** X12. When the dates of a non-empty first page are valid, the id kept
    as [nextSinceId] after it is the id of a most recent tweet of the
    reply: a tweet of the reply that is at least as recent as every tweet
    of the reply. *)
Theorem first_page_watermark_is_most_recent (env : Env) (raw : Value)
  (query : TweetFilter) (tr : list Event) (st : TweetService.StreamState)
  (Hraw : transport env tr TWEET_SEARCH (ArgsFilter query None None) = Ok raw)
  (Hdates : Forall (valid_date env) (list_ (extracted env raw)))
  (Hsome : list_ (extracted env raw) <> [])
  (Hfirst : TweetService.cursor st = None) :
  exists data newest,
    fst (TweetService.search env query None None tr) = Ok data
    /\ TweetService.nextSinceId (TweetService.after_batch st data)
       = Some (tweet_id newest)
    /\ In newest (list_ (extracted env raw))
    /\ forall tweet,
         In tweet (list_ (extracted env raw)) ->
         most_recent_first env newest tweet.
Proof.
  unfold extracted in *.
  assert (Hcase : (exists page : CursoredData Tweet,
                      CursoredData_new env TWEET raw = Ok page)
                  \/ exists failure, CursoredData_new env TWEET raw = Throw failure)
    by (destruct (CursoredData_new env TWEET raw); eauto).
  destruct Hcase as [(page & Hpage) | (failure & Hpage)]; rewrite Hpage in *;
    [|now contradiction Hsome].
  rewrite (@search_run env _ _ _ _ _ _ Hraw Hpage). cbn [fst].
  rewrite (sort_by_date_valid Hdates).
  pose proof (Array_sort_perm (time env) (list_ page)) as Hperm.
  pose proof (Array_sort_at_least (key := time env) Hdates) as Hsorted.
  destruct (Array_sort (descending_cmp (time env)) (list_ page))
    as [|newest rest] eqn:Hsort.
  - apply Permutation_sym, Permutation_nil in Hperm. contradiction.
  - eexists _, newest. split; [reflexivity|].
    assert (Hin : In newest (list_ page)).
    { apply Permutation_in with (newest :: rest);
        [now apply Permutation_sym | now left]. }
    split; [|split; [exact Hin|]].
    + unfold TweetService.after_batch. cbn [list_ next]. rewrite Hfirst.
      now destruct (next page).
    + intros tweet Htweet.
      apply (Permutation_in _ Hperm) in Htweet.
      inversion Hsorted as [|? ? _ Hall]; subst.
      destruct Htweet as [<- | Htweet].
      * apply at_least_refl. rewrite Forall_forall in Hdates. now apply Hdates.
      * rewrite Forall_forall in Hall. now apply Hall.
Qed.

Lemma first_page_watermark_is_most_recent_witness :
  exists data newest,
    fst (TweetService.search tie_env from_u1 None None []) = Ok data
    /\ TweetService.nextSinceId (TweetService.after_batch TweetService.initial data)
       = Some (tweet_id newest)
    /\ In newest [tie_a; tie_b; tie_c]
    /\ forall tweet,
         In tweet [tie_a; tie_b; tie_c] -> most_recent_first tie_env newest tweet.
Proof.
  refine (@first_page_watermark_is_most_recent tie_env
            (Mock.raw_page [tie_a; tie_b; tie_c] None) from_u1 []
            TweetService.initial eq_refl _ _ eq_refl).
  - repeat constructor; vm_compute; discriminate.
  - vm_compute. discriminate.
Defined.

(** ** Posting without media *)



(** ** The end of a round *)

(** X14. A batch that is empty, even one that carries a next cursor, or
    that has no next cursor ends the round: the cursor is cleared,
    [sinceId] takes the value of [nextSinceId], which after a non-empty
    first page is the id of its first tweet and after an empty batch the
    value it had, and the next search, one sleep later, carries that
    [sinceId] and no cursor. *)
Theorem round_end_promotes_the_watermark (env : Env) (filter : TweetFilter)
  (pollingInterval startDate : Z) (st : TweetService.StreamState)
  (tweets : CursoredData Tweet) (tr : list Event)
  (Hend : list_ tweets = [] \/ next tweets = None) :
  let st' := TweetService.after_batch st tweets in
  TweetService.cursor st' = None
  /\ TweetService.sinceId st' = TweetService.nextSinceId st'
  /\ (list_ tweets = [] ->
      TweetService.sinceId st' = TweetService.nextSinceId st)
  /\ (forall first rest,
        list_ tweets = first :: rest -> TweetService.cursor st = None ->
        TweetService.sinceId st' = Some (tweet_id first))
  /\ exists r g,
       TweetService.resume env filter pollingInterval startDate 2
         (TweetService.InBatch st tweets []) tr
       = (r, g,
          tr ++ [EvSleep pollingInterval;
                 EvRequest TWEET_SEARCH
                   (ArgsFilter
                      (Filter.mk (Filter.fromUsers filter) (Filter.words filter)
                         (Some startDate) (TweetService.nextSinceId st')
                         (Filter.others filter))
                      None None)]).
Proof.
  intros st'.
  assert (Hshape : st' = TweetService.mkStreamState None
                           (TweetService.nextSinceId st')
                           (TweetService.nextSinceId st')).
  { unfold st', TweetService.after_batch.
    destruct Hend as [-> | ->]; [reflexivity|].
    now destruct (list_ tweets). }
  split; [now rewrite Hshape|]. split; [now rewrite Hshape|]. split; [|split].
  - intros Hnil. rewrite Hshape. cbn [TweetService.sinceId].
    unfold st', TweetService.after_batch. now rewrite Hnil.
  - intros first rest Hbatch Hcursor. rewrite Hshape.
    cbn [TweetService.sinceId].
    unfold st', TweetService.after_batch. rewrite Hbatch, Hcursor.
    now destruct (next tweets).
  - rewrite resume_S. cbn [TweetService.step]. fold st'. rewrite resume_S.
    destruct (loop_head_sleeps_then_searches env filter pollingInterval
                startDate st' tr) as (r & g & Hstep).
    rewrite Hstep. unfold TweetService.query.
    replace (TweetService.sinceId st') with (TweetService.nextSinceId st')
      by now rewrite Hshape at 2.
    replace (TweetService.cursor st') with (@None string)
      by now rewrite Hshape.
    destruct r; eexists _, _; reflexivity.
Qed.

Lemma round_end_promotes_the_watermark_witness :
  TweetService.sinceId
    (TweetService.after_batch TweetService.initial (mkCursoredData [e1; e2] None))
  = Some "1001"%string.
Proof.
  exact (proj1 (proj2 (proj2 (proj2
    (round_end_promotes_the_watermark stream_env from_u1 1000 0
       TweetService.initial (mkCursoredData [e1; e2] None) []
       (or_intror eq_refl)))))
    e1 [e2] eq_refl eq_refl).
Defined.
